(** * Task Service and Diagnostic Service over a Redis store

    A shallow embedding of the two Flask applications of the repository,

      - labs/monolithic-container/src/monolithic/app.py   (module [Monolithic])
      - labs/troubleshooting-multi-container/src/python-app/app.py
                                                           (module [PythonApp])

    Handlers are computations in a state-and-exception monad over the Redis
    keyspace.  Python values are an inductive type, dictionaries keep their
    insertion order, and the Redis keyspace is one finite map from key names
    to typed values, as in the server. *)

From Stdlib Require Import ZArith String Ascii List OrderedTypeEx.
From stdpp Require Import base option list gmap sets strings pretty sorting.

Set Warnings "-register-all".
Local Open Scope string_scope.
Local Open Scope Z_scope.

(** ** Python values *)

(** The values that travel through the handlers: [None], booleans, integers,
    strings, lists and dictionaries with string keys (what [json.loads]
    produces, floats left out).  A dictionary is the list of its items in
    insertion order. *)
Inductive value :=
| VNone
| VBool (b : bool)
| VInt (n : Z)
| VStr (s : string)
| VList (l : list value)
| VDict (d : list (string * value)).

Abbreviation dict := (list (string * value)).

(** Python truthiness: [bool(v)]. *)
Definition truthy (v : value) : bool :=
  match v with
  | VNone => false
  | VBool b => b
  | VInt n => negb (Z.eqb n 0)
  | VStr s => negb (String.eqb s "")
  | VList l => match l with [] => false | _ => true end
  | VDict d => match d with [] => false | _ => true end
  end.

(** [d.get(k)], as an option. *)
Fixpoint dict_get (d : dict) (k : string) : option value :=
  match d with
  | [] => None
  | (k', v) :: d' => if String.eqb k' k then Some v else dict_get d' k
  end.

(** [d.get(k, dflt)]. *)
Definition dict_get_default (d : dict) (k : string) (dflt : value) : value :=
  default dflt (dict_get d k).

(** [d[k] = v]: an existing key keeps its position, a new one goes last. *)
Fixpoint dict_set (d : dict) (k : string) (v : value) : dict :=
  match d with
  | [] => [(k, v)]
  | (k', v') :: d' =>
      if String.eqb k' k then (k, v) :: d' else (k', v') :: dict_set d' k v
  end.

(** [str(n)] on an integer: its decimal numeral. *)
Definition str (n : Z) : string := pretty n.

(** ** Exceptions *)

(** The exception classes that can reach a handler: those of redis-py
    ([AuthenticationError] and [BusyLoadingError] derive from
    [ConnectionError]; [TimeoutError] and [ResponseError] do not) and the
    Python built-ins raised by operations on values. *)
Inductive exn_class :=
| ConnectionError
| AuthenticationError
| BusyLoadingError
| TimeoutError
| ResponseError
| AttributeError
| TypeError
| KeyError.

Record exn := Exn { exn_cls : exn_class; exn_str : string }.

(** [isinstance(e, redis.ConnectionError)]. *)
Definition is_ConnectionError (e : exn) : bool :=
  match exn_cls e with
  | ConnectionError | AuthenticationError | BusyLoadingError => true
  | _ => false
  end.

Inductive result (A : Type) :=
| Val (a : A)
| Raise (e : exn).
Arguments Val {A} a.
Arguments Raise {A} e.

Global Instance result_ret : MRet result := λ A a, Val a.
Global Instance result_bind : MBind result := λ A B f m,
  match m with
  | Val a => f a
  | Raise e => Raise e
  end.

(** ** Operations on Python values that may raise *)

(** [v.get(k, dflt)]: only dictionaries have the method. *)
Definition method_get (v : value) (k : string) (dflt : value) : result value :=
  match v with
  | VDict d => Val (dict_get_default d k dflt)
  | _ => Raise (Exn AttributeError "object has no attribute 'get'")
  end.

(** [v[k]] with a string key. *)
Definition getitem (v : value) (k : string) : result value :=
  match v with
  | VDict d => match dict_get d k with
               | Some x => Val x
               | None => Raise (Exn KeyError k)
               end
  | _ => Raise (Exn TypeError "indices must be integers")
  end.

(** [v[k] = x] with a string key; the result is the updated dictionary. *)
Definition setitem (v : value) (k : string) (x : value) : result dict :=
  match v with
  | VDict d => Val (dict_set d k x)
  | _ => Raise (Exn TypeError "object does not support item assignment")
  end.

(** A value read as an integer: booleans are integers in Python. *)
Definition as_int (v : value) : option Z :=
  match v with
  | VInt n => Some n
  | VBool b => Some (if b then 1 else 0)
  | _ => None
  end.

(** Python's [<] between two sort keys: strings compare by code points,
    integers numerically; a string against a number, [None] or a dictionary
    raises [TypeError].  Comparison of two lists is not modelled (no sort
    key is a list) and counts as unsupported. *)
Definition lt (a b : value) : result bool :=
  match a, b with
  | VStr s1, VStr s2 => Val (String.ltb s1 s2)
  | _, _ => match as_int a, as_int b with
            | Some n1, Some n2 => Val (Z.ltb n1 n2)
            | _, _ => Raise (Exn TypeError "'<' not supported between instances")
            end
  end.

(** [sorted(l, key=key)].  Python's sort is stable and decides by [<] on the
    keys alone; it is modelled by the stable insertion sort, each element
    going in front of the first one whose key is not smaller. *)
Section sorted.
Context {A : Type} (key : A → value).

Fixpoint insert_sorted (x : A) (l : list A) : result (list A) :=
  match l with
  | [] => Val [x]
  | y :: l' =>
      b ← lt (key y) (key x);
      if b : bool then (r ← insert_sorted x l'; mret (y :: r))
      else mret (x :: y :: l')
  end.

Fixpoint sorted (l : list A) : result (list A) :=
  match l with
  | [] => Val []
  | x :: l' => s ← sorted l'; insert_sorted x s
  end.
End sorted.

(** ** The Redis store *)

(** A Redis string value.  The service only stores the output of
    [json.dumps] and the decimal integers written by INCR, so a string value
    is represented by the JSON document it spells; [json.dumps] and
    [json.loads] are the two directions of that representation. *)
Inductive text := Encoded (doc : value).

Module json.
Definition dumps (v : value) : text := Encoded v.
Definition loads (t : text) : value := let 'Encoded v := t in v.
End json.

(** Truthiness of a string read from the store: the spelling of a document
    is never the empty string. *)
Definition text_truthy (t : text) : bool := true.

Inductive rval :=
| RStr (t : text)
| RSet (members : gset string).

(** The client handle together with the server behind it: [fault] is the
    error every command of the current request raises when the store cannot
    be used ([None] when it answers), [db] is the keyspace. *)
Record redis := Redis { fault : option exn; db : gmap string rval }.

(** Computations that read and write the store and may raise. *)
Definition M (A : Type) : Type := redis → result A * redis.

Global Instance M_ret : MRet M := λ A a r, (Val a, r).
Global Instance M_bind : MBind M := λ A B f m r,
  match m r with
  | (Val a, r') => f a r'
  | (Raise e, r') => (Raise e, r')
  end.

Definition raise {A} (e : exn) : M A := λ r, (Raise e, r).

(** A computation on values, run inside a handler. *)
Definition lift {A} (x : result A) : M A := λ r, (x, r).

(** [try: m except: h e]. *)
Definition try_except {A} (m : M A) (h : exn → M A) : M A := λ r,
  match m r with
  | (Val a, r') => (Val a, r')
  | (Raise e, r') => h e r'
  end.

Definition WRONGTYPE : exn :=
  Exn ResponseError "WRONGTYPE Operation against a key holding the wrong kind of value".
Definition NOT_AN_INTEGER : exn :=
  Exn ResponseError "value is not an integer or out of range".

Module redis_client.

(** One round trip: fails with the connection's fault, otherwise runs the
    command on the keyspace. *)
Definition command {A} (run : gmap string rval → result A * gmap string rval) : M A :=
  λ r, match fault r with
       | Some e => (Raise e, r)
       | None => let '(a, d) := run (db r) in (a, Redis None d)
       end.

Definition ping : M bool := command (λ d, (Val true, d)).

(** GET: [None] for a missing key. *)
Definition get (k : string) : M (option text) :=
  command (λ d, match d !! k with
                | None => (Val None, d)
                | Some (RStr t) => (Val (Some t), d)
                | Some (RSet _) => (Raise WRONGTYPE, d)
                end).

(** SET overwrites whatever the key held. *)
Definition set (k : string) (t : text) : M bool :=
  command (λ d, (Val true, <[k := RStr t]> d)).

(** DEL returns the number of keys removed. *)
Definition delete (k : string) : M Z :=
  command (λ d, (Val (match d !! k with Some _ => 1 | None => 0 end), base.delete k d)).

(** INCR: a missing key counts as 0; the new value is stored and
    returned.  The store's integers are taken unbounded: the server's
    refusal to increment past the largest signed 64-bit integer is not
    modelled, so a statement about INCR at an arbitrary stored value carries
    the 64-bit range as a hypothesis; from an empty store the counter equals
    the number of creations made. *)
Definition incr (k : string) : M Z :=
  command (λ d, match d !! k with
                | None => (Val 1, <[k := RStr (Encoded (VInt 1))]> d)
                | Some (RStr (Encoded (VInt n))) =>
                    (Val (n + 1), <[k := RStr (Encoded (VInt (n + 1)))]> d)
                | Some (RStr _) => (Raise NOT_AN_INTEGER, d)
                | Some (RSet _) => (Raise WRONGTYPE, d)
                end).

(** SMEMBERS: a missing key is the empty set. *)
Definition smembers (k : string) : M (gset string) :=
  command (λ d, match d !! k with
                | None => (Val ∅, d)
                | Some (RSet s) => (Val s, d)
                | Some (RStr _) => (Raise WRONGTYPE, d)
                end).

(** SADD returns the number of members added. *)
Definition sadd (k : string) (x : string) : M Z :=
  command (λ d, match d !! k with
                | None => (Val 1, <[k := RSet {[x]}]> d)
                | Some (RSet s) =>
                    (Val (if decide (x ∈ s) then 0 else 1), <[k := RSet (s ∪ {[x]})]> d)
                | Some (RStr _) => (Raise WRONGTYPE, d)
                end).

(** SREM returns the number of members removed; a set that becomes empty
    is removed from the keyspace. *)
Definition srem (k : string) (x : string) : M Z :=
  command (λ d, match d !! k with
                | None => (Val 0, d)
                | Some (RSet s) =>
                    (Val (if decide (x ∈ s) then 1 else 0),
                     if decide (s ∖ {[x]} = ∅) then base.delete k d
                     else <[k := RSet (s ∖ {[x]})]> d)
                | Some (RStr _) => (Raise WRONGTYPE, d)
                end).

End redis_client.

(** ** Flask responses *)

Inductive payload :=
| Html (tasks : list dict) (total_tasks completed_tasks : nat)
| Json (v : value)
| Location (url : string).

Record response := Response { status : Z; body : payload }.

Definition jsonify (v : value) : response := Response 200 (Json v).
(** [return resp, code]. *)
Definition with_status (r : response) (code : Z) : response := Response code (body r).
Definition redirect (url : string) : response := Response 302 (Location url).
Definition render_template_string (tasks : list dict) (total_tasks completed_tasks : nat)
  : response := Response 200 (Html tasks total_tasks completed_tasks).

(** [url_for(endpoint)] for the routes without path parameters; the
    handlers only ask for ['index']. *)
Definition url_for (endpoint : string) : string :=
  if String.eqb endpoint "index" then "/"
  else if String.eqb endpoint "create_task" then "/tasks"
  else if String.eqb endpoint "health_check" then "/api/health"
  else "/api/tasks".

(** [request.form.get(k)]: the field's text, or [None]. *)
Fixpoint form_get (form : list (string * string)) (k : string) : value :=
  match form with
  | [] => VNone
  | (k', s) :: form' => if String.eqb k' k then VStr s else form_get form' k
  end.

(** ** labs/monolithic-container/src/monolithic/app.py *)

(** The requests the route table accepts; [task_id] is the path segment
    bound by [<task_id>]. *)
Inductive request :=
| GET_index
| POST_tasks (form : list (string * string))
| POST_toggle (task_id : string)
| POST_delete (task_id : string)
| GET_api_tasks
| POST_api_tasks (data : value)
| GET_api_health.

Module Monolithic.

(** [f'task:{task_id}'] *)
Definition task_key (task_id : string) : string := "task:" +:+ task_id.

(** The body of [for task_id in task_ids:], over the members in the order
    the set yields them. *)
Fixpoint get_tasks_loop (task_ids : list string) (tasks : list dict) : M (list dict) :=
  match task_ids with
  | [] => mret tasks
  | task_id :: rest =>
      task_data ← redis_client.get (task_key task_id);
      match task_data with
      | Some t =>
          if text_truthy t then
            task ← lift (setitem (json.loads t) "id" (VStr task_id));
            get_tasks_loop rest (tasks ++ [task])
          else get_tasks_loop rest tasks
      | None => get_tasks_loop rest tasks
      end
  end.

Definition get_tasks : M (list dict) :=
  task_ids ← redis_client.smembers "task_ids";
  tasks ← get_tasks_loop (elements task_ids) [];
  lift (sorted (λ x, dict_get_default x "id" (VInt 0)) tasks).

Definition get_next_id : M Z := redis_client.incr "task_counter".

Definition index : M response :=
  tasks ← get_tasks;
  let total_tasks := length tasks in
  let completed_tasks :=
    length (List.filter (λ t, truthy (dict_get_default t "completed" (VBool false))) tasks) in
  mret (render_template_string tasks total_tasks completed_tasks).

Definition create_task (form : list (string * string)) : M response :=
  let title := form_get form "title" in
  (if truthy title then
     n ← get_next_id;
     let task_id := str n in
     let task := [("title", title); ("completed", VBool false)] in
     redis_client.set (task_key task_id) (json.dumps (VDict task));;
     redis_client.sadd "task_ids" task_id;;
     mret ()
   else mret ());;
  mret (redirect (url_for "index")).

Definition toggle_task (task_id : string) : M response :=
  task_data ← redis_client.get (task_key task_id);
  match task_data with
  | Some t =>
      if text_truthy t then
        let task := json.loads t in
        c ← lift (method_get task "completed" (VBool false));
        task ← lift (setitem task "completed" (VBool (negb (truthy c))));
        redis_client.set (task_key task_id) (json.dumps (VDict task));;
        mret ()
      else mret ()
  | None => mret ()
  end;;
  mret (redirect (url_for "index")).

Definition delete_task (task_id : string) : M response :=
  redis_client.delete (task_key task_id);;
  redis_client.srem "task_ids" task_id;;
  mret (redirect (url_for "index")).

Definition api_get_tasks : M response :=
  tasks ← get_tasks;
  mret (jsonify (VList (VDict <$> tasks))).

(** [data] is [request.get_json()], the parsed body ([None] for the body
    [null]). *)
Definition api_create_task (data : value) : M response :=
  title ← (if truthy data then lift (method_get data "title" VNone) else mret data);
  if truthy title then
    n ← get_next_id;
    let task_id := str n in
    title ← lift (getitem data "title");
    let task := [("title", title); ("completed", VBool false)] in
    redis_client.set (task_key task_id) (json.dumps (VDict task));;
    redis_client.sadd "task_ids" task_id;;
    let task := dict_set task "id" (VStr task_id) in
    mret (with_status (jsonify (VDict task)) 201)
  else
    mret (with_status (jsonify (VDict [("error", VStr "Title required")])) 400).

Definition health_check : M response :=
  redis_status ← try_except (redis_client.ping;; mret "healthy")
                            (λ _, mret "unhealthy");
  mret (jsonify (VDict [("status", VStr "running");
                        ("redis", VStr redis_status);
                        ("container_type", VStr "monolithic")])).

(** The [@app.route] table. *)
Definition app (req : request) : M response :=
  match req with
  | GET_index => index
  | POST_tasks form => create_task form
  | POST_toggle task_id => toggle_task task_id
  | POST_delete task_id => delete_task task_id
  | GET_api_tasks => api_get_tasks
  | POST_api_tasks data => api_create_task data
  | GET_api_health => health_check
  end.

(** A run of POST /api/tasks requests, one after the other. *)
Fixpoint api_create_all (datas : list value) : M (list response) :=
  match datas with
  | [] => mret []
  | data :: rest =>
      r ← api_create_task data;
      rs ← api_create_all rest;
      mret (r :: rs)
  end.

End Monolithic.

(** ** labs/troubleshooting-multi-container/src/python-app/app.py *)

Module PythonApp.

Definition home (REDIS_HOST : string) : M response :=
  mret (jsonify (VDict [("service", VStr "Python Flask API");
                        ("status", VStr "running");
                        ("redis_host", VStr REDIS_HOST)])).

Definition health : M response :=
  try_except
    (redis_client.ping;;
     mret (with_status (jsonify (VDict [("status", VStr "healthy");
                                        ("redis", VStr "connected")])) 200))
    (λ e, if is_ConnectionError e
          then mret (with_status (jsonify (VDict [("status", VStr "unhealthy");
                                                  ("redis", VStr "disconnected")])) 503)
          else raise e).

Definition counter : M response :=
  try_except
    (count ← redis_client.incr "visit_counter";
     mret (jsonify (VDict [("counter", VInt count)])))
    (λ e, if is_ConnectionError e
          then mret (with_status (jsonify (VDict [("error", VStr (exn_str e))])) 503)
          else raise e).

End PythonApp.

(** ** Observations on the keyspace *)

(** The integer INCR would start from at key [k]: 0 for a missing key. *)
Definition stored_int (d : gmap string rval) (k : string) : option Z :=
  match d !! k with
  | None => Some 0
  | Some (RStr (Encoded (VInt n))) => Some n
  | Some _ => None
  end.

(** The identifier set: the members of the set at ['task_ids']. *)
Definition task_ids (d : gmap string rval) : gset string :=
  match d !! "task_ids" with
  | Some (RSet s) => s
  | _ => ∅
  end.

(** ['task_ids'] is missing or holds a non-empty set (the server keeps no
    empty sets). *)
Definition ids_wf (d : gmap string rval) : Prop :=
  d !! "task_ids" = None ∨ ∃ s, s ≠ ∅ ∧ d !! "task_ids" = Some (RSet s).

(** The completion state of a task as the handlers read it:
    [task.get('completed', False)]. *)
Definition completed_of (task : dict) : bool :=
  truthy (dict_get_default task "completed" (VBool false)).

(** ** Histories of the Task Service *)

(** The keyspace once task [s] has been deleted: the record is gone and [s]
    is out of the identifier set. *)
Definition remove_task (d : gmap string rval) (s : string) : gmap string rval :=
  let d1 := delete (Monolithic.task_key s) d in
  if decide (task_ids d ∖ {[s]} = ∅) then delete "task_ids" d1
  else <["task_ids" := RSet (task_ids d ∖ {[s]})]> d1.

(** The keyspace once task [n] has been created with [title]: the counter
    stands at [n], the record is stored and [n] is in the identifier set. *)
Definition add_task (d : gmap string rval) (n : Z) (title : value) : gmap string rval :=
  <["task_ids" := RSet (task_ids d ∪ {[str n]})]>
    (<[Monolithic.task_key (str n) :=
         RStr (json.dumps (VDict [("title", title); ("completed", VBool false)]))]>
       (<["task_counter" := RStr (Encoded (VInt n))]> d)).

(** The keyspace after one request, served while the store is in condition
    [f] ([None]: it answers). *)
Definition serve (f : option exn) (req : request) (d : gmap string rval)
  : gmap string rval :=
  db (snd (Monolithic.app req (Redis f d))).

(** The keyspaces the service can bring an empty store to. *)
Inductive reachable : gmap string rval → Prop :=
| reachable_empty : reachable ∅
| reachable_serve d f req : reachable d → reachable (serve f req d).

(** The keyspace after a list of requests, all answered by the store. *)
Fixpoint play (reqs : list request) (d : gmap string rval) : gmap string rval :=
  match reqs with
  | [] => d
  | req :: rest => play rest (serve None req d)
  end.

(** The store after [n] tasks were created on an empty one through the
    JSON route. *)
Definition n_tasks (n : nat) : redis :=
  Redis None (play (replicate n (POST_api_tasks (VDict [("title", VStr "task")]))) ∅).

(** ** The task list as the specification describes it *)

(** The title of a create-task request that carries a non-empty one. *)
Definition request_title (req : request) : option value :=
  match req with
  | POST_tasks form =>
      let t := form_get form "title" in if truthy t then Some t else None
  | POST_api_tasks (VDict items) =>
      let t := dict_get_default items "title" VNone in if truthy t then Some t else None
  | _ => None
  end.

Record entry := Entry { entry_id : Z; entry_title : value; entry_completed : bool }.

(** The number of identifiers issued so far and the tasks that exist, oldest
    first. *)
Record ledger := Ledger { issued : Z; live : list entry }.

(** Flip the completion of the task whose identifier reads [s]. *)
Definition toggle_entry (s : string) (e : entry) : entry :=
  if String.eqb (str (entry_id e)) s
  then Entry (entry_id e) (entry_title e) (negb (entry_completed e))
  else e.

(** Creating with a non-empty title issues the next identifier and adds the
    task, not completed; toggling flips the completion of the task with that
    identifier, if there is one; deleting removes it, if there is one. *)
Definition ledger_step (req : request) (L : ledger) : ledger :=
  match req with
  | POST_tasks _ | POST_api_tasks _ =>
      match request_title req with
      | Some t => Ledger (issued L + 1) (live L ++ [Entry (issued L + 1) t false])
      | None => L
      end
  | POST_toggle s =>
      Ledger (issued L) (toggle_entry s <$> live L)
  | POST_delete s =>
      Ledger (issued L)
        (filter (λ e, str (entry_id e) ≠ s) (live L))
  | _ => L
  end.

Definition ledger_of (reqs : list request) : ledger :=
  fold_left (λ L req, ledger_step req L) reqs (Ledger 0 []).

(** A task as the listing shows it. *)
Definition view (e : entry) : dict :=
  [("title", entry_title e); ("completed", VBool (entry_completed e));
   ("id", VStr (str (entry_id e)))].

(** A task as it is stored. *)
Definition record_of (e : entry) : rval :=
  RStr (json.dumps (VDict [("title", entry_title e);
                           ("completed", VBool (entry_completed e))])).

(** N: the creations of a history that carry a non-empty title. *)
Definition creations (reqs : list request) : nat :=
  length (List.filter (λ req, bool_decide (is_Some (request_title req))) reqs).

(** M: the deletions of a history. *)
Definition deletions (reqs : list request) : nat :=
  length (List.filter (λ req, match req with POST_delete _ => true | _ => false end) reqs).

(** Every deletion of the history names an identifier created earlier in it
    and not deleted before ([created] identifiers were issued and [deleted]
    were deleted before the history starts). *)
Fixpoint deletions_distinct (created : nat) (deleted : list string)
    (reqs : list request) : bool :=
  match reqs with
  | [] => true
  | POST_delete s :: rest =>
      bool_decide (s ∈ (λ k, str (Z.of_nat k)) <$> seq 1 created)
      && bool_decide (s ∉ deleted)
      && deletions_distinct created (s :: deleted) rest
  | req :: rest =>
      deletions_distinct
        (if bool_decide (is_Some (request_title req)) then S created else created)
        deleted rest
  end.

(** The keyspace holds exactly the tasks of the ledger. *)
Record agrees (d : gmap string rval) (L : ledger) : Prop := {
  agrees_counter : stored_int d "task_counter" = Some (issued L);
  agrees_nonneg : 0 ≤ issued L;
  agrees_wf : ids_wf d;
  agrees_nodup : NoDup (entry_id <$> live L);
  agrees_range : ∀ e, e ∈ live L → 1 ≤ entry_id e ≤ issued L;
  agrees_ids : ∀ s, s ∈ task_ids d ↔ ∃ e, e ∈ live L ∧ s = str (entry_id e);
  agrees_records :
    ∀ e, e ∈ live L → d !! Monolithic.task_key (str (entry_id e)) = Some (record_of e);
  agrees_absent :
    ∀ s, (∀ e, e ∈ live L → s ≠ str (entry_id e)) → d !! Monolithic.task_key s = None
}.

(** The task [get_tasks] builds for identifier [s]. *)
Definition stored_task (d : gmap string rval) (s : string) : dict :=
  match d !! Monolithic.task_key s with
  | Some (RStr (Encoded (VDict task))) => dict_set task "id" (VStr s)
  | _ => []
  end.

(** Every member of the identifier set has a stored task record. *)
Definition ids_have_records (d : gmap string rval) : Prop :=
  ∀ s, s ∈ task_ids d →
       ∃ title completed,
         d !! Monolithic.task_key s =
           Some (RStr (json.dumps (VDict [("title", title); ("completed", VBool completed)]))).

(** The title in the body of a POST /api/tasks request. *)
Definition body_title (data : value) : value :=
  match data with
  | VDict items => dict_get_default items "title" VNone
  | _ => VNone
  end.

(** The body carries a non-empty title. *)
Definition has_title (data : value) : Prop := truthy (body_title data) = true.

(** The answer to a creation that was issued identifier [n]. *)
Definition created_response (data : value) (n : Z) : response :=
  Response 201 (Json (VDict [("title", body_title data); ("completed", VBool false);
                             ("id", VStr (str n))])).

(** [n] was never used in keyspace [d]: it is not in the identifier set and
    has no record. *)
Definition unused (d : gmap string rval) (n : Z) : Prop :=
  (str n ∉ task_ids d) ∧ (d !! Monolithic.task_key (str n) = None).

(** The identifiers of the tasks of a listing. *)
Definition listed_ids (tasks : list dict) : list (option value) :=
  (λ task, dict_get task "id") <$> tasks.

(** The ledger has issued [created] identifiers, and each of them is either
    live or in [deleted]. *)
Record counted (L : ledger) (created : nat) (deleted : list string) : Prop := {
  counted_issued : issued L = Z.of_nat created;
  counted_nodup : NoDup (entry_id <$> live L);
  counted_range : ∀ e, e ∈ live L → 1 ≤ entry_id e ≤ issued L;
  counted_cover :
    ∀ k, 1 ≤ k ≤ issued L → (∃ e, e ∈ live L ∧ entry_id e = k) ∨ str k ∈ deleted;
  counted_length : (length (live L) + length deleted = created)%nat
}.

(** The range of the integers the store keeps: signed 64-bit.  INCR on
    [int64_max], or on a value outside the range, is refused by the server. *)
Definition int64_min : Z := - 2 ^ 63.
Definition int64_max : Z := 2 ^ 63 - 1.

(** ** What a handler can change *)

(** The handler leaves the store (keyspace and condition) as it found it. *)
Definition readonly {A} (m : M A) : Prop := ∀ w, snd (m w) = w.

(** The handler changes no key outside [P]. *)
Definition touches_only {A} (P : string → Prop) (m : M A) : Prop :=
  ∀ w k, ¬ P k → db (snd (m w)) !! k = db w !! k.

(** The keys of the Task Service. *)
Definition task_namespace (k : string) : Prop :=
  k = "task_counter" ∨ k = "task_ids" ∨ ∃ s, k = Monolithic.task_key s.

(** [strip_prefix p k]: what follows [p] in [k], when [k] starts with [p]. *)
Fixpoint strip_prefix (p k : string) : option string :=
  match p with
  | EmptyString => Some k
  | String a p' =>
      match k with
      | String b k' => if Ascii.eqb a b then strip_prefix p' k' else None
      | EmptyString => None
      end
  end.

(** The identifier string of a listed task. *)
Definition id_string (task : dict) : string :=
  match dict_get task "id" with
  | Some (VStr s) => s
  | _ => ""
  end.

(** ** labs/troubleshooting-multi-container/src/python-app/app.py: start-up *)

(** How loading the module ends: [sys.exit(code)] after the lines printed to
    stderr, an exception raised by [int], or the client created for a host
    and a port. *)
Inductive startup_outcome :=
| SystemExit (code : Z) (stderr : list string)
| Uncaught (e : exn)
| Client (host : string) (port : Z).

Section startup.
(** Python's built-in [int] on a string. *)
Variable int : string → result Z.

(** The module body down to the creation of [redis_client]; [environ] is
    [os.environ]. *)
Definition startup (environ : gmap string string) : startup_outcome :=
  let REDIS_HOST := environ !! "REDIS_HOST" in
  let REDIS_PORT := default "6379" (environ !! "REDIS_PORT") in
  if match REDIS_HOST with Some h => negb (String.eqb h "") | None => false end
  then
    match int REDIS_PORT with
    | Val port => Client (default "" REDIS_HOST) port
    | Raise e => Uncaught e
    end
  else
    SystemExit 1
      ["ERROR: REDIS_HOST environment variable is required";
       "Please set REDIS_HOST to the hostname of your Redis server"].
End startup.

(** The tasks of the ledger are in the order of their identifiers, which lie
    between 1 and the number issued. *)
Definition ordered (L : ledger) : Prop :=
  StronglySorted (λ e e', entry_id e < entry_id e') (live L) ∧
  0 ≤ issued L ∧
  ∀ e, e ∈ live L → 1 ≤ entry_id e ≤ issued L.

(** * Properties *)

(** ** Keys *)

Lemma task_key_inj a b : Monolithic.task_key a = Monolithic.task_key b → a = b.
Proof. unfold Monolithic.task_key. cbv [String.append]. congruence. Qed.

Lemma task_key_not_ids a : Monolithic.task_key a ≠ "task_ids".
Proof. unfold Monolithic.task_key. cbv [String.append]. congruence. Qed.

Lemma task_key_not_counter a : Monolithic.task_key a ≠ "task_counter".
Proof. unfold Monolithic.task_key. cbv [String.append]. congruence. Qed.

(** ** Sets *)

Lemma difference_notin (s : gset string) x : x ∉ s → s ∖ {[x]} = s.
Proof. intros H. by apply difference_disjoint_L, disjoint_singleton_r. Qed.

(** ** Dictionaries *)

Lemma dict_get_default_Some d k dflt v :
  dict_get d k = Some v → dict_get_default d k dflt = v.
Proof. unfold dict_get_default. by intros ->. Qed.

Lemma dict_get_default_None d k dflt :
  dict_get d k = None → dict_get_default d k dflt = dflt.
Proof. unfold dict_get_default. by intros ->. Qed.

(** ** One step of a handler *)

Lemma bind_val {A B} (m : M A) (f : A → M B) w a w' :
  m w = (Val a, w') → (m ≫= f) w = f a w'.
Proof. intros H. unfold mbind, M_bind. by rewrite H. Qed.

Lemma bind_raise {A B} (m : M A) (f : A → M B) w e w' :
  m w = (Raise e, w') → (m ≫= f) w = (Raise e, w').
Proof. intros H. unfold mbind, M_bind. by rewrite H. Qed.

Lemma bind_lift {A B} (a : A) (f : A → M B) w : (lift (Val a) ≫= f) w = f a w.
Proof. done. Qed.

Lemma bind_ret {A B} (a : A) (f : A → M B) w : (mret a ≫= f) w = f a w.
Proof. done. Qed.

Lemma command_fault {A} (run : gmap string rval → result A * gmap string rval) e d :
  redis_client.command run (Redis (Some e) d) = (Raise e, Redis (Some e) d).
Proof. done. Qed.

Lemma get_run k d :
  redis_client.get k (Redis None d) =
    (match d !! k with
     | None => Val None
     | Some (RStr t) => Val (Some t)
     | Some (RSet _) => Raise WRONGTYPE
     end, Redis None d).
Proof.
  unfold redis_client.get, redis_client.command. cbn [fault db].
  by destruct (d !! k) as [[]|].
Qed.

Lemma get_Some k d t :
  d !! k = Some (RStr t) → redis_client.get k (Redis None d) = (Val (Some t), Redis None d).
Proof. intros H. by rewrite get_run, H. Qed.

Lemma get_None k d :
  d !! k = None → redis_client.get k (Redis None d) = (Val None, Redis None d).
Proof. intros H. by rewrite get_run, H. Qed.

Lemma set_run k t d :
  redis_client.set k t (Redis None d) = (Val true, Redis None (<[k := RStr t]> d)).
Proof. done. Qed.

Lemma delete_run k d :
  redis_client.delete k (Redis None d) =
    (Val (match d !! k with Some _ => 1 | None => 0 end), Redis None (delete k d)).
Proof. done. Qed.

Lemma incr_run k d n :
  stored_int d k = Some n →
  redis_client.incr k (Redis None d) =
    (Val (n + 1), Redis None (<[k := RStr (Encoded (VInt (n + 1)))]> d)).
Proof.
  unfold stored_int, redis_client.incr, redis_client.command. cbn [fault db].
  destruct (d !! k) as [[[[]]|]|]; intros H; try discriminate H;
    by injection H as <-.
Qed.

Lemma sadd_run x d :
  ids_wf d →
  ∃ c, redis_client.sadd "task_ids" x (Redis None d) =
    (Val c, Redis None (<["task_ids" := RSet (task_ids d ∪ {[x]})]> d)).
Proof.
  unfold ids_wf, task_ids, redis_client.sadd, redis_client.command. cbn [fault db].
  intros [H | (s & _ & H)]; rewrite H; eexists; [|done].
  by rewrite (left_id_L ∅ (∪)).
Qed.

Lemma srem_run x d :
  ids_wf d →
  ∃ c, redis_client.srem "task_ids" x (Redis None d) =
    (Val c, Redis None (if decide (task_ids d ∖ {[x]} = ∅) then delete "task_ids" d
                        else <["task_ids" := RSet (task_ids d ∖ {[x]})]> d)).
Proof.
  unfold ids_wf, task_ids, redis_client.srem, redis_client.command. cbn [fault db].
  intros [H | (s & _ & H)]; rewrite H; eexists; [|done].
  rewrite decide_True by apply empty_difference_L. by rewrite delete_id.
Qed.

(** ** Creating a task: what is written *)

Lemma api_create_task_ok d items title n :
  dict_get items "title" = Some title →
  truthy title = true →
  stored_int d "task_counter" = Some n →
  ids_wf d →
  Monolithic.api_create_task (VDict items) (Redis None d) =
    (Val (Response 201 (Json (VDict [("title", title); ("completed", VBool false);
                                     ("id", VStr (str (n + 1)))]))),
     Redis None (add_task d (n + 1) title)).
Proof.
  intros Ht Htr Hn Hwf. unfold Monolithic.api_create_task.
  destruct items as [|kv items]; [done|].
  change (truthy (VDict (kv :: items))) with true. cbv iota.
  unfold method_get, getitem, Monolithic.get_next_id.
  rewrite (dict_get_default_Some _ _ _ _ Ht), Ht, bind_lift. cbv beta. rewrite Htr.
  rewrite (bind_val _ _ _ _ _ (incr_run _ _ _ Hn)), bind_lift. cbv beta.
  rewrite (bind_val _ _ _ _ _ (set_run _ _ _)).
  set (d1 := <[Monolithic.task_key _ := _]> _).
  assert (ids_wf d1 ∧ task_ids d1 = task_ids d) as [Hwf1 Hids].
  { unfold ids_wf, task_ids, d1.
    rewrite lookup_insert_ne; [|apply task_key_not_ids].
    by rewrite lookup_insert_ne. }
  destruct (sadd_run (str (n + 1)) d1 Hwf1) as [c Hc].
  rewrite (bind_val _ _ _ _ _ Hc). unfold add_task. by rewrite Hids.
Qed.

Lemma create_task_ok d form n :
  truthy (form_get form "title") = true →
  stored_int d "task_counter" = Some n →
  ids_wf d →
  Monolithic.create_task form (Redis None d) =
    (Val (Response 302 (Location "/")),
     Redis None (add_task d (n + 1) (form_get form "title"))).
Proof.
  intros Htr Hn Hwf. unfold Monolithic.create_task. rewrite Htr.
  unfold Monolithic.get_next_id.
  rewrite bind_val with (a := ()) (w' := Redis None (add_task d (n + 1) (form_get form "title")));
    [done|].
  rewrite (bind_val _ _ _ _ _ (incr_run _ _ _ Hn)).
  rewrite (bind_val _ _ _ _ _ (set_run _ _ _)).
  set (d1 := <[Monolithic.task_key _ := _]> _).
  assert (ids_wf d1 ∧ task_ids d1 = task_ids d) as [Hwf1 Hids].
  { unfold ids_wf, task_ids, d1.
    rewrite lookup_insert_ne; [|apply task_key_not_ids].
    by rewrite lookup_insert_ne. }
  destruct (sadd_run (str (n + 1)) d1 Hwf1) as [c Hc].
  rewrite (bind_val _ _ _ _ _ Hc). unfold add_task. by rewrite Hids.
Qed.

(** What [add_task] leaves in the keyspace. *)
Lemma add_task_lookup d n title :
  add_task d n title !! "task_counter" = Some (RStr (Encoded (VInt n))) ∧
  add_task d n title !! "task_ids" = Some (RSet (task_ids d ∪ {[str n]})) ∧
  add_task d n title !! Monolithic.task_key (str n) =
    Some (RStr (json.dumps (VDict [("title", title); ("completed", VBool false)]))) ∧
  ∀ s, s ≠ str n → add_task d n title !! Monolithic.task_key s = d !! Monolithic.task_key s.
Proof.
  unfold add_task. repeat split.
  - rewrite lookup_insert_ne by done.
    rewrite lookup_insert_ne by apply task_key_not_counter.
    by rewrite lookup_insert_eq.
  - by rewrite lookup_insert_eq.
  - rewrite lookup_insert_ne by (apply not_eq_sym, task_key_not_ids).
    by rewrite lookup_insert_eq.
  - intros s Hs.
    rewrite lookup_insert_ne by (apply not_eq_sym, task_key_not_ids).
    rewrite lookup_insert_ne by (intros E; by apply task_key_inj in E).
    by rewrite lookup_insert_ne by (apply not_eq_sym, task_key_not_counter).
Qed.

(** ** Toggle and delete *)

Lemma dict_get_set_eq d k v : dict_get (dict_set d k v) k = Some v.
Proof.
  induction d as [|[k' v'] d IH]; simpl.
  - by rewrite String.eqb_refl.
  - destruct (String.eqb k' k) eqn:E; simpl.
    + by rewrite String.eqb_refl.
    + by rewrite E.
Qed.

Lemma dict_get_set_ne d k k' v : k ≠ k' → dict_get (dict_set d k v) k' = dict_get d k'.
Proof.
  intros Hne. induction d as [|[k0 v0] d IH]; simpl.
  - destruct (String.eqb_spec k k'); congruence.
  - destruct (String.eqb_spec k0 k) as [->|]; simpl.
    + destruct (String.eqb_spec k k'); congruence.
    + by rewrite IH.
Qed.

Lemma dict_set_set d k v v' : dict_set (dict_set d k v) k v' = dict_set d k v'.
Proof.
  induction d as [|[k0 v0] d IH]; simpl.
  - by rewrite String.eqb_refl.
  - destruct (String.eqb k0 k) eqn:E; simpl.
    + by rewrite String.eqb_refl.
    + by rewrite E, IH.
Qed.

Lemma dict_set_same d k v : dict_get d k = Some v → dict_set d k v = d.
Proof.
  induction d as [|[k0 v0] d IH]; simpl; [done|].
  destruct (String.eqb_spec k0 k) as [->|]; [congruence|].
  intros H. by rewrite IH.
Qed.

Lemma completed_of_set task b :
  completed_of (dict_set task "completed" (VBool b)) = b.
Proof.
  unfold completed_of. by rewrite (dict_get_default_Some _ _ _ _ (dict_get_set_eq _ _ _)).
Qed.

(** One toggle of a stored dictionary. *)
Lemma toggle_task_run d task_id task :
  d !! Monolithic.task_key task_id = Some (RStr (json.dumps (VDict task))) →
  Monolithic.toggle_task task_id (Redis None d) =
    (Val (Response 302 (Location "/")),
     Redis None
       (<[Monolithic.task_key task_id :=
            RStr (json.dumps
                    (VDict (dict_set task "completed" (VBool (negb (completed_of task))))))]> d)).
Proof.
  intros H. unfold Monolithic.toggle_task.
  rewrite (bind_val _ _ _ _ _ (get_Some _ _ _ H)).
  change (text_truthy _) with true. cbv iota.
  change (json.loads (json.dumps (VDict task))) with (VDict task).
  unfold method_get, setitem.
  rewrite bind_val with (a := ()) (w' := Redis None
    (<[Monolithic.task_key task_id :=
         RStr (json.dumps
                 (VDict (dict_set task "completed" (VBool (negb (completed_of task))))))]> d));
    [done|].
  rewrite bind_lift. cbv beta. rewrite bind_lift. cbv beta.
  by rewrite (bind_val _ _ _ _ _ (set_run _ _ _)).
Qed.

(** A toggle of an identifier without a record changes nothing. *)
Lemma toggle_task_missing d task_id :
  d !! Monolithic.task_key task_id = None →
  Monolithic.toggle_task task_id (Redis None d) =
    (Val (Response 302 (Location "/")), Redis None d).
Proof.
  intros H. unfold Monolithic.toggle_task.
  by rewrite (bind_val _ _ _ _ _ (get_None _ _ H)).
Qed.

Lemma delete_task_run d task_id :
  ids_wf d →
  Monolithic.delete_task task_id (Redis None d) =
    (Val (Response 302 (Location "/")), Redis None (remove_task d task_id)).
Proof.
  intros Hwf. unfold Monolithic.delete_task.
  rewrite (bind_val _ _ _ _ _ (delete_run _ _)).
  set (d1 := delete _ d).
  assert (ids_wf d1 ∧ task_ids d1 = task_ids d) as [Hwf1 Hids].
  { unfold ids_wf, task_ids, d1.
    by rewrite lookup_delete_ne by apply task_key_not_ids. }
  destruct (srem_run task_id d1 Hwf1) as [c Hc].
  rewrite (bind_val _ _ _ _ _ Hc). unfold remove_task. by rewrite Hids.
Qed.

(** What [remove_task] leaves in the keyspace. *)
Lemma remove_task_lookup d s :
  ids_wf (remove_task d s) ∧
  task_ids (remove_task d s) = task_ids d ∖ {[s]} ∧
  remove_task d s !! "task_counter" = d !! "task_counter" ∧
  remove_task d s !! Monolithic.task_key s = None ∧
  ∀ s', s' ≠ s →
        remove_task d s !! Monolithic.task_key s' = d !! Monolithic.task_key s'.
Proof.
  unfold remove_task. cbv zeta.
  destruct (decide (task_ids d ∖ {[s]} = ∅)) as [He|Hne]; repeat split.
  - left. by rewrite lookup_delete_eq.
  - unfold task_ids at 1. by rewrite lookup_delete_eq.
  - rewrite lookup_delete_ne by done.
    by rewrite lookup_delete_ne by apply task_key_not_counter.
  - rewrite lookup_delete_ne by (apply not_eq_sym, task_key_not_ids).
    by rewrite lookup_delete_eq.
  - intros s' Hs'. rewrite lookup_delete_ne by (apply not_eq_sym, task_key_not_ids).
    by rewrite lookup_delete_ne by (intros E; by apply task_key_inj in E).
  - right. eexists. split; [exact Hne|]. by rewrite lookup_insert_eq.
  - unfold task_ids at 1. by rewrite lookup_insert_eq.
  - rewrite lookup_insert_ne by done.
    by rewrite lookup_delete_ne by apply task_key_not_counter.
  - rewrite lookup_insert_ne by (apply not_eq_sym, task_key_not_ids).
    by rewrite lookup_delete_eq.
  - intros s' Hs'. rewrite lookup_insert_ne by (apply not_eq_sym, task_key_not_ids).
    by rewrite lookup_delete_ne by (intros E; by apply task_key_inj in E).
Qed.

(** ** The keyspace follows the ledger *)

Lemma str_inj a b : str a = str b → a = b.
Proof. unfold str. apply (inj pretty). Qed.

Lemma stored_int_lookup d k n :
  d !! k = Some (RStr (Encoded (VInt n))) → stored_int d k = Some n.
Proof. unfold stored_int. by intros ->. Qed.

Lemma stored_int_ext d d' k : d' !! k = d !! k → stored_int d' k = stored_int d k.
Proof. unfold stored_int. by intros ->. Qed.

Lemma ids_wf_ext d d' : d' !! "task_ids" = d !! "task_ids" → ids_wf d → ids_wf d'.
Proof. unfold ids_wf. by intros ->. Qed.

Lemma task_ids_ext d d' : d' !! "task_ids" = d !! "task_ids" → task_ids d' = task_ids d.
Proof. unfold task_ids. by intros ->. Qed.

Lemma entry_unique (l : list entry) e e' :
  NoDup (entry_id <$> l) → e ∈ l → e' ∈ l → entry_id e = entry_id e' → e = e'.
Proof.
  induction l as [|x l IH]; [by intros _ ?%elem_of_nil|].
  rewrite fmap_cons, NoDup_cons. intros [Hx Hl] He He' Hid.
  apply elem_of_cons in He as [->|He]; apply elem_of_cons in He' as [->|He'].
  - done.
  - exfalso. apply Hx. rewrite Hid. by apply list_elem_of_fmap_2.
  - exfalso. apply Hx. rewrite <- Hid. by apply list_elem_of_fmap_2.
  - by apply IH.
Qed.

Lemma agrees_empty : agrees ∅ (Ledger 0 []).
Proof.
  split; cbn [issued live]; try done.
  - by left.
  - constructor.
  - intros e ?%elem_of_nil. done.
  - intros s. unfold task_ids. rewrite lookup_empty. split.
    + by intros ?%elem_of_empty.
    + intros (e & ?%elem_of_nil & _). done.
  - intros e ?%elem_of_nil. done.
Qed.

Lemma agrees_add_task d L title :
  agrees d L →
  agrees (add_task d (issued L + 1) title)
         (Ledger (issued L + 1) (live L ++ [Entry (issued L + 1) title false])).
Proof.
  intros [Hc H0 Hwf Hnd Hrg Hids Hrec Habs].
  destruct (add_task_lookup d (issued L + 1) title) as (Ac & Ai & Ar & Ao).
  split; cbn [issued live].
  - by apply stored_int_lookup.
  - lia.
  - right. eexists. split; [|exact Ai].
    intros He. apply (not_elem_of_empty (C := gset string) (str (issued L + 1))).
    rewrite <- He. apply elem_of_union_r. by apply elem_of_singleton.
  - rewrite fmap_app. apply NoDup_app. split; [done|]. split; [|apply NoDup_singleton].
    intros k (e & -> & He)%list_elem_of_fmap Hk.
    apply list_elem_of_singleton in Hk. cbn in Hk. specialize (Hrg e He). lia.
  - intros e [He| ->%list_elem_of_singleton]%elem_of_app; cbn [entry_id].
    + specialize (Hrg e He). lia.
    + lia.
  - intros s. unfold task_ids at 1. rewrite Ai, elem_of_union, elem_of_singleton, Hids.
    split.
    + intros [(e & He & ->) | ->].
      * exists e. split; [|done]. apply elem_of_app. by left.
      * eexists. split; [apply elem_of_app; right; by apply list_elem_of_singleton|done].
    + intros (e & [He| ->%list_elem_of_singleton]%elem_of_app & ->).
      * left. by exists e.
      * by right.
  - intros e [He| ->%list_elem_of_singleton]%elem_of_app; cbn [entry_id].
    + rewrite Ao; [by apply Hrec|].
      intros E%str_inj. specialize (Hrg e He). lia.
    + exact Ar.
  - intros s Hs. rewrite Ao.
    + apply Habs. intros e He. apply Hs, elem_of_app. by left.
    + apply (Hs (Entry (issued L + 1) title false)), elem_of_app. right.
      by apply list_elem_of_singleton.
Qed.

Lemma toggle_entry_id s e : entry_id (toggle_entry s e) = entry_id e.
Proof. unfold toggle_entry. by destruct (String.eqb _ _). Qed.

Lemma toggle_entry_ids s (l : list entry) : entry_id <$> (toggle_entry s <$> l) = entry_id <$> l.
Proof.
  rewrite <- list_fmap_compose. apply list_fmap_ext. intros i e _. apply toggle_entry_id.
Qed.

Lemma toggle_entry_other s e : str (entry_id e) ≠ s → toggle_entry s e = e.
Proof. unfold toggle_entry. by intros ?%String.eqb_neq; destruct (String.eqb _ _). Qed.

Lemma toggle_entry_same e :
  toggle_entry (str (entry_id e)) e = Entry (entry_id e) (entry_title e) (negb (entry_completed e)).
Proof. unfold toggle_entry. by rewrite String.eqb_refl. Qed.

(** The record a toggle writes is the record of the flipped entry. *)
Lemma record_of_toggled e :
  RStr (json.dumps
          (VDict (dict_set [("title", entry_title e); ("completed", VBool (entry_completed e))]
                    "completed"
                    (VBool (negb (completed_of [("title", entry_title e);
                                                ("completed", VBool (entry_completed e))]))))))
  = record_of (toggle_entry (str (entry_id e)) e).
Proof. by rewrite toggle_entry_same. Qed.

Lemma agrees_toggle d L s :
  agrees d L → agrees (serve None (POST_toggle s) d) (ledger_step (POST_toggle s) L).
Proof.
  intros Hag. pose proof Hag as [Hc H0 Hwf Hnd Hrg Hids Hrec Habs].
  unfold serve. cbn [Monolithic.app ledger_step].
  destruct (decide (s ∈ task_ids d)) as [Hin|Hout].
  - apply Hids in Hin as (e0 & He0 & ->).
    rewrite (toggle_task_run _ _ _ (Hrec e0 He0)). cbn [snd db].
    rewrite record_of_toggled.
    set (k0 := Monolithic.task_key (str (entry_id e0))).
    split; cbn [issued live].
    + rewrite <- Hc. apply stored_int_ext.
      by rewrite lookup_insert_ne by apply task_key_not_counter.
    + done.
    + eapply ids_wf_ext; [|exact Hwf].
      by rewrite lookup_insert_ne by apply task_key_not_ids.
    + by rewrite toggle_entry_ids.
    + intros e' (e & -> & He)%list_elem_of_fmap. rewrite toggle_entry_id. by apply Hrg.
    + intros s. rewrite (task_ids_ext d) by
        (by rewrite lookup_insert_ne by apply task_key_not_ids).
      rewrite Hids. split.
      * intros (e & He & ->). exists (toggle_entry (str (entry_id e0)) e).
        split; [by apply list_elem_of_fmap_2|]. by rewrite toggle_entry_id.
      * intros (e' & (e & -> & He)%list_elem_of_fmap & ->). exists e.
        split; [done|]. by rewrite toggle_entry_id.
    + intros e' (e & -> & He)%list_elem_of_fmap. rewrite toggle_entry_id.
      destruct (decide (entry_id e = entry_id e0)) as [Heq|Hne].
      * assert (e = e0) as -> by (by eapply entry_unique).
        by rewrite lookup_insert_eq.
      * rewrite (toggle_entry_other _ e) by (by intros ?%str_inj).
        rewrite lookup_insert_ne by (by intros ?%task_key_inj%str_inj).
        by apply Hrec.
    + intros s Hs.
      assert (Hs' : ∀ e, e ∈ live L → s ≠ str (entry_id e)).
      { intros e He. rewrite <- (toggle_entry_id (str (entry_id e0)) e).
        by apply Hs, list_elem_of_fmap_2. }
      rewrite lookup_insert_ne; [by apply Habs|].
      intros E%task_key_inj. by apply (Hs' e0 He0).
  - assert (Hno : ∀ e, e ∈ live L → str (entry_id e) ≠ s).
    { intros e He <-. apply Hout, Hids. by exists e. }
    rewrite toggle_task_missing by (apply Habs; intros e He; by apply not_eq_sym, Hno).
    cbn [snd db].
    replace (toggle_entry s <$> live L) with (live L); [by destruct L|].
    rewrite <- (list_fmap_id (live L)) at 1. apply list_fmap_ext.
    intros i e Hi. symmetry. apply toggle_entry_other, Hno.
    by eapply list_elem_of_lookup_2.
Qed.

Lemma agrees_delete d L s :
  agrees d L → agrees (serve None (POST_delete s) d) (ledger_step (POST_delete s) L).
Proof.
  intros [Hc H0 Hwf Hnd Hrg Hids Hrec Habs].
  unfold serve. cbn [Monolithic.app ledger_step].
  rewrite delete_task_run by done. cbn [snd db].
  destruct (remove_task_lookup d s) as (Rwf & Ri & Rc & Rk & Ro).
  split; cbn [issued live].
  - rewrite <- Hc. by apply stored_int_ext.
  - done.
  - done.
  - apply (sublist_NoDup _ (entry_id <$> live L)); [done|].
    apply fmap_sublist, sublist_filter.
  - intros e [_ He]%list_elem_of_filter. by apply Hrg.
  - intros s'. rewrite Ri, elem_of_difference, elem_of_singleton, Hids. split.
    + intros [(e & He & ->) Hne]. exists e. split; [|done].
      by apply list_elem_of_filter.
    + intros (e & [Hne He]%list_elem_of_filter & ->). split; [by exists e|done].
  - intros e [Hne He]%list_elem_of_filter. rewrite Ro by done. by apply Hrec.
  - intros s' Hs'. destruct (decide (s' = s)) as [->|Hne]; [done|].
    rewrite Ro by done. apply Habs. intros e He.
    destruct (decide (str (entry_id e) = s)) as [<-|Hes]; [done|].
    by apply Hs', list_elem_of_filter.
Qed.

(** ** Listing *)

Lemma smembers_run d :
  ids_wf d →
  redis_client.smembers "task_ids" (Redis None d) = (Val (task_ids d), Redis None d).
Proof.
  unfold ids_wf, task_ids, redis_client.smembers, redis_client.command. cbn [fault db].
  by intros [H | (s & _ & H)]; rewrite H.
Qed.

Lemma get_tasks_loop_run d ids acc :
  (∀ s, s ∈ ids → ∃ task, d !! Monolithic.task_key s = Some (RStr (Encoded (VDict task)))) →
  Monolithic.get_tasks_loop ids acc (Redis None d) =
    (Val (acc ++ (stored_task d <$> ids))%list, Redis None d).
Proof.
  revert acc. induction ids as [|s ids IH]; intros acc Hall.
  - cbn. by rewrite app_nil_r.
  - destruct (Hall s) as [task Ht]; [by left|].
    cbn [Monolithic.get_tasks_loop].
    rewrite (bind_val _ _ _ _ _ (get_Some _ _ _ Ht)).
    change (text_truthy _) with true. cbv iota.
    change (json.loads (Encoded (VDict task))) with (VDict task).
    unfold setitem. rewrite bind_lift. cbv beta.
    rewrite IH by (intros s' Hs'; apply Hall; by right).
    rewrite fmap_cons, <- app_assoc. unfold stored_task at 2. by rewrite Ht.
Qed.

Section sorted_facts.
Context {A : Type} (key : A → value).

Lemma insert_sorted_perm x l :
  (∀ y, y ∈ x :: l → ∃ s, key y = VStr s) →
  ∃ l', insert_sorted key x l = Val l' ∧ l' ≡ₚ x :: l.
Proof.
  induction l as [|y l IH]; intros Hk.
  - by exists [x].
  - destruct (Hk x) as [sx Hx]; [by left|].
    destruct (Hk y) as [sy Hy]; [by right; left|].
    cbn [insert_sorted]. rewrite Hx, Hy. cbn [lt mbind result_bind].
    destruct (String.ltb sy sx).
    + destruct IH as (l' & -> & Hp).
      { intros z Hz. apply Hk. apply elem_of_cons in Hz as [->|Hz]; [by left|].
        by right; right. }
      exists (y :: l'). split; [done|]. rewrite Hp. apply Permutation_swap.
    + by exists (x :: y :: l).
Qed.

Lemma sorted_perm l :
  (∀ y, y ∈ l → ∃ s, key y = VStr s) →
  ∃ l', sorted key l = Val l' ∧ l' ≡ₚ l.
Proof.
  induction l as [|x l IH]; intros Hk.
  - by exists [].
  - destruct IH as (l1 & H1 & Hp1); [intros y Hy; apply Hk; by right|].
    cbn [sorted]. rewrite H1. cbn [mbind result_bind].
    destruct (insert_sorted_perm x l1) as (l2 & H2 & Hp2).
    { intros y Hy. apply Hk. by rewrite <- Hp1. }
    exists l2. split; [done|]. by rewrite Hp2, Hp1.
Qed.
End sorted_facts.

Lemma stored_task_view d L e :
  agrees d L → e ∈ live L → stored_task d (str (entry_id e)) = view e.
Proof.
  intros Hag He. unfold stored_task. by rewrite (agrees_records _ _ Hag e He).
Qed.

(** On a keyspace that agrees with a ledger, the listing returns the views
    of the ledger's tasks, in some order, and changes nothing. *)
Lemma get_tasks_agrees d L :
  agrees d L →
  ∃ l, Monolithic.get_tasks (Redis None d) = (Val l, Redis None d) ∧
       l ≡ₚ view <$> live L.
Proof.
  intros Hag. unfold Monolithic.get_tasks.
  rewrite (bind_val _ _ _ _ _ (smembers_run _ (agrees_wf _ _ Hag))).
  assert (Hmem : ∀ s, s ∈ elements (task_ids d) → ∃ e, e ∈ live L ∧ s = str (entry_id e)).
  { intros s Hs%elem_of_elements. by apply (agrees_ids _ _ Hag). }
  assert (Hrecs : ∀ s, s ∈ elements (task_ids d) →
            ∃ task, d !! Monolithic.task_key s = Some (RStr (Encoded (VDict task)))).
  { intros s (e & He & ->)%Hmem. eexists. apply (agrees_records _ _ Hag e He). }
  rewrite (bind_val _ _ _ _ _ (get_tasks_loop_run d _ [] Hrecs)).
  rewrite app_nil_l.
  assert (Hperm : stored_task d <$> elements (task_ids d) ≡ₚ view <$> live L).
  { transitivity (stored_task d <$> ((str ∘ entry_id) <$> live L)).
    - apply fmap_Permutation, NoDup_Permutation.
      + apply NoDup_elements.
      + rewrite list_fmap_compose. apply NoDup_fmap_2; [|apply (agrees_nodup _ _ Hag)].
        intros a b. apply str_inj.
      + intros s. rewrite elem_of_elements, (agrees_ids _ _ Hag), list_elem_of_fmap.
        split; intros (e & H1 & H2); exists e; by split.
    - rewrite <- list_fmap_compose. erewrite (list_fmap_ext _ view); [done|].
      intros i e Hi. cbn. eapply stored_task_view; [done|].
      by eapply list_elem_of_lookup_2. }
  destruct (sorted_perm (λ x : dict, dict_get_default x "id" (VInt 0))
              (stored_task d <$> elements (task_ids d))) as (l & Hl & Hp).
  { intros t (s & -> & (e & He & ->)%Hmem)%list_elem_of_fmap.
    rewrite (stored_task_view _ _ _ Hag He). by eexists. }
  exists l. unfold lift. rewrite Hl. split; [done|]. by rewrite Hp.
Qed.

(** ** One request *)

(** A request that finds the store failing leaves the keyspace as it was. *)
Lemma serve_fault e req d : serve (Some e) req d = d.
Proof.
  unfold serve. destruct req as [|form|s|s| |data|]; cbn [Monolithic.app]; try reflexivity.
  - unfold Monolithic.create_task. by destruct (truthy (form_get form "title")).
  - unfold Monolithic.api_create_task.
    destruct (truthy data) eqn:Hd.
    + destruct data as [| | | | |items]; try reflexivity.
      unfold method_get. rewrite bind_lift.
      by destruct (truthy (dict_get_default items "title" VNone)).
    + rewrite bind_ret. by rewrite Hd.
Qed.

Lemma truthy_get_title items :
  truthy (dict_get_default items "title" VNone) = true →
  dict_get items "title" = Some (dict_get_default items "title" VNone).
Proof. unfold dict_get_default. by destruct (dict_get items "title"). Qed.

(** A request served by an answering store moves the keyspace as the ledger
    says. *)
Lemma agrees_serve d L req :
  agrees d L → agrees (serve None req d) (ledger_step req L).
Proof.
  intros Hag. destruct req as [|form|s|s| |data|].
  - unfold serve. cbn [Monolithic.app ledger_step]. unfold Monolithic.index.
    destruct (get_tasks_agrees d L Hag) as (l & Hl & _).
    by rewrite (bind_val _ _ _ _ _ Hl).
  - unfold serve. cbn [Monolithic.app ledger_step request_title].
    destruct (truthy (form_get form "title")) eqn:Ht.
    + rewrite (create_task_ok _ _ _ Ht (agrees_counter _ _ Hag) (agrees_wf _ _ Hag)).
      by apply agrees_add_task.
    + unfold Monolithic.create_task. by rewrite Ht.
  - by apply agrees_toggle.
  - by apply agrees_delete.
  - unfold serve. cbn [Monolithic.app ledger_step]. unfold Monolithic.api_get_tasks.
    destruct (get_tasks_agrees d L Hag) as (l & Hl & _).
    by rewrite (bind_val _ _ _ _ _ Hl).
  - unfold serve. cbn [Monolithic.app ledger_step request_title].
    destruct data as [| | | | |items];
      try (unfold Monolithic.api_create_task;
           match goal with |- context [truthy ?v] => destruct (truthy v) eqn:Hd end;
           [reflexivity || done | rewrite bind_ret, Hd; done]).
    destruct (truthy (dict_get_default items "title" VNone)) eqn:Ht.
    + rewrite (api_create_task_ok _ _ _ _ (truthy_get_title _ Ht) Ht
                 (agrees_counter _ _ Hag) (agrees_wf _ _ Hag)).
      by apply agrees_add_task.
    + unfold Monolithic.api_create_task. destruct items as [|kv items]; [done|].
      change (truthy (VDict (kv :: items))) with true. cbv iota.
      unfold method_get. rewrite bind_lift. by rewrite Ht.
  - unfold serve. cbn [Monolithic.app ledger_step]. done.
Qed.

Lemma reachable_agrees d : reachable d → ∃ L, agrees d L.
Proof.
  induction 1 as [|d f req _ [L HL]].
  - eexists. apply agrees_empty.
  - destruct f as [e|].
    + rewrite serve_fault. by exists L.
    + eexists. by apply agrees_serve.
Qed.

Lemma play_agrees reqs d L :
  agrees d L → agrees (play reqs d) (fold_left (λ L req, ledger_step req L) reqs L).
Proof.
  revert d L. induction reqs as [|req reqs IH]; intros d L Hag; [done|].
  cbn [play fold_left]. by apply IH, agrees_serve.
Qed.

Lemma play_reachable reqs d : reachable d → reachable (play reqs d).
Proof.
  revert d. induction reqs as [|req reqs IH]; intros d Hd; [done|].
  cbn [play]. apply IH. by constructor.
Qed.

(** ** Issued identifiers *)

Lemma issued_fold reqs L :
  issued (fold_left (λ L req, ledger_step req L) reqs L) =
    issued L + Z.of_nat (creations reqs).
Proof.
  revert L. induction reqs as [|req reqs IH]; intros L.
  - cbn. lia.
  - cbn [fold_left]. rewrite IH. unfold creations. cbn [List.filter].
    destruct req as [|form|s|s| |data|]; cbn [ledger_step];
      try (cbn; lia);
      destruct (request_title _); cbn; lia.
Qed.

Lemma agrees_unused d L n : agrees d L → issued L < n → unused d n.
Proof.
  intros Hag Hn. split.
  - intros (e & He & E%str_inj)%(agrees_ids _ _ Hag).
    pose proof (agrees_range _ _ Hag e He). lia.
  - apply (agrees_absent _ _ Hag). intros e He E%str_inj.
    pose proof (agrees_range _ _ Hag e He). lia.
Qed.

Lemma has_title_inv data :
  has_title data →
  ∃ items, data = VDict items ∧ dict_get items "title" = Some (body_title data).
Proof.
  unfold has_title. destruct data as [| | | | |items]; try done.
  intros H. exists items. split; [done|]. by apply truthy_get_title.
Qed.

Lemma api_create_all_run datas d L :
  agrees d L →
  Forall has_title datas →
  fst (Monolithic.api_create_all datas (Redis None d)) =
    Val (zip_with created_response datas
           ((λ i, issued L + Z.of_nat i) <$> seq 1 (length datas))).
Proof.
  revert d L. induction datas as [|data datas IH]; intros d L Hag Hall; [done|].
  apply Forall_cons in Hall as [Hd Hall].
  destruct (has_title_inv _ Hd) as (items & -> & Ht).
  cbn [Monolithic.api_create_all].
  rewrite (bind_val _ _ _ _ _
             (api_create_task_ok _ _ _ _ Ht Hd (agrees_counter _ _ Hag) (agrees_wf _ _ Hag))).
  specialize (IH _ _ (agrees_add_task _ _ (body_title (VDict items)) Hag) Hall).
  cbn [issued] in IH.
  unfold mbind at 1, M_bind at 1.
  destruct (Monolithic.api_create_all datas _) as [[rs|e] w'] eqn:E; [|done].
  cbn [fst] in IH. injection IH as ->.
  cbn [length seq fmap list_fmap zip_with]. change (Z.of_nat 1) with 1.
  unfold mret, M_ret. cbn [fst]. do 3 f_equal.
  rewrite <- (fmap_S_seq 1), <- list_fmap_compose. apply list_fmap_ext.
  intros i k _. cbn. lia.
Qed.

Lemma shifted_seq_sorted c a k :
  StronglySorted Z.lt ((λ i, c + Z.of_nat i) <$> seq a k).
Proof.
  revert a. induction k as [|k IH]; intros a; [constructor|].
  cbn [seq fmap list_fmap]. constructor; [apply IH|].
  apply Forall_fmap, Forall_seq. intros i Hi. cbn. lia.
Qed.

(** ** Counting the tasks of a history *)

Lemma filter_keeps_all (s : string) (l : list entry) :
  (∀ e, e ∈ l → str (entry_id e) ≠ s) → filter (λ e, str (entry_id e) ≠ s) l = l.
Proof.
  induction l as [|x l IH]; intros Hall; [done|].
  rewrite filter_cons_True by (apply Hall; by left).
  f_equal. apply IH. intros e He. apply Hall. by right.
Qed.

Lemma filter_drops_one (l : list entry) e0 :
  NoDup (entry_id <$> l) → e0 ∈ l →
  S (length (filter (λ e, str (entry_id e) ≠ str (entry_id e0)) l)) = length l.
Proof.
  induction l as [|x l IH]; [by intros _ ?%elem_of_nil|].
  rewrite fmap_cons, NoDup_cons. intros [Hx Hl] [->|He0]%elem_of_cons.
  - rewrite filter_cons_False by (by intros H). rewrite filter_keeps_all; [done|].
    intros e He E%str_inj. apply Hx. rewrite <- E. by apply list_elem_of_fmap_2.
  - rewrite filter_cons_True.
    + cbn [length]. f_equal. by apply IH.
    + intros E%str_inj. apply Hx. rewrite E. by apply list_elem_of_fmap_2.
Qed.

Lemma counted_create L created deleted t :
  counted L created deleted →
  counted (Ledger (issued L + 1) (live L ++ [Entry (issued L + 1) t false]))
          (S created) deleted.
Proof.
  intros [Hi Hnd Hrg Hcv Hlen]. split; cbn [issued live].
  - lia.
  - rewrite fmap_app. apply NoDup_app. split; [done|]. split; [|apply NoDup_singleton].
    intros k (e & -> & He)%list_elem_of_fmap Hk%list_elem_of_singleton.
    cbn in Hk. specialize (Hrg e He). lia.
  - intros e [He| ->%list_elem_of_singleton]%elem_of_app; cbn [entry_id].
    + specialize (Hrg e He). lia.
    + lia.
  - intros k Hk. destruct (decide (k = issued L + 1)) as [->|Hne].
    + left. eexists. split; [apply elem_of_app; right; by apply list_elem_of_singleton|done].
    + destruct (Hcv k) as [(e & He & Hid) | Hdel]; [lia| |by right].
      left. exists e. split; [|done]. apply elem_of_app. by left.
  - rewrite length_app. cbn [length]. lia.
Qed.

Lemma counted_toggle L created deleted s :
  counted L created deleted →
  counted (Ledger (issued L) (toggle_entry s <$> live L)) created deleted.
Proof.
  intros [Hi Hnd Hrg Hcv Hlen]. split; cbn [issued live].
  - done.
  - by rewrite toggle_entry_ids.
  - intros e' (e & -> & He)%list_elem_of_fmap. rewrite toggle_entry_id. by apply Hrg.
  - intros k Hk. destruct (Hcv k Hk) as [(e & He & Hid) | Hdel]; [|by right].
    left. exists (toggle_entry s e). split; [by apply list_elem_of_fmap_2|].
    by rewrite toggle_entry_id.
  - by rewrite length_fmap.
Qed.

Lemma counted_delete L created deleted s :
  counted L created deleted →
  s ∈ (λ k, str (Z.of_nat k)) <$> seq 1 created →
  s ∉ deleted →
  counted (Ledger (issued L) (filter (λ e, str (entry_id e) ≠ s) (live L)))
          created (s :: deleted).
Proof.
  intros [Hi Hnd Hrg Hcv Hlen] (k & -> & Hk%elem_of_seq)%list_elem_of_fmap Hs.
  destruct (Hcv (Z.of_nat k)) as [(e0 & He0 & Hid) | Hdel]; [lia| |done].
  split; cbn [issued live].
  - done.
  - apply (sublist_NoDup _ (entry_id <$> live L)); [done|].
    apply fmap_sublist, sublist_filter.
  - intros e [_ He]%list_elem_of_filter. by apply Hrg.
  - intros k' Hk'. destruct (Hcv k' Hk') as [(e & He & He') | Hdel]; [|by right; right].
    destruct (decide (k' = Z.of_nat k)) as [->|Hne]; [by right; left|].
    left. exists e. split; [|done]. apply list_elem_of_filter. split; [|done].
    intros E%str_inj. lia.
  - rewrite <- Hid. cbn [length]. rewrite <- Nat.add_succ_comm.
    by rewrite (filter_drops_one _ _ Hnd He0).
Qed.

Lemma counted_fold reqs L created deleted :
  counted L created deleted →
  deletions_distinct created deleted reqs = true →
  (length (live (fold_left (λ L req, ledger_step req L) reqs L))
     + (length deleted + deletions reqs)
   = created + creations reqs)%nat.
Proof.
  revert L created deleted.
  induction reqs as [|req reqs IH]; intros L created deleted Hc Hok.
  - cbn. rewrite !Nat.add_0_r. apply (counted_length _ _ _ Hc).
  - unfold creations, deletions in *. cbn [fold_left List.filter].
    destruct req as [|form|s|s| |data|]; cbn [deletions_distinct] in Hok.
    + by apply IH.
    + cbn [ledger_step]. destruct (request_title (POST_tasks form)) as [t|] eqn:Ht.
      * cbn in Hok |- *. rewrite Nat.add_succ_r, <- Nat.add_succ_l.
        apply IH; [by apply counted_create|done].
      * by apply IH.
    + cbn [ledger_step]. apply IH; [by apply counted_toggle|done].
    + apply andb_prop in Hok as [[H1%bool_decide_eq_true H2%bool_decide_eq_true]%andb_prop H3].
      cbn [ledger_step length]. specialize (IH _ _ _ (counted_delete _ _ _ _ Hc H1 H2) H3).
      cbn [length] in IH.
      replace (bool_decide (is_Some (request_title (POST_delete s)))) with false by done.
      lia.
    + by apply IH.
    + cbn [ledger_step]. destruct (request_title (POST_api_tasks data)) as [t|] eqn:Ht.
      * cbn in Hok |- *. rewrite Nat.add_succ_r, <- Nat.add_succ_l.
        apply IH; [by apply counted_create|done].
      * by apply IH.
    + by apply IH.
Qed.

Lemma counted_empty : counted (Ledger 0 []) 0 [].
Proof.
  split; cbn [issued live]; try done.
  - constructor.
  - intros e ?%elem_of_nil. done.
  - intros k Hk. lia.
Qed.

(** ** Creating a task *)

(** C2 as stated fails on the form route: an empty title is answered by the
    redirect to the index page (status 302), not by a 400 response. *)
Lemma create_task_empty_title_is_redirect :
  ∃ r, Monolithic.create_task [("title", "")] (Redis None ∅) = (Val r, Redis None ∅) ∧
       status r = 302 ∧ body r = Location "/" ∧ status r ≠ 400.
Proof. eexists. split; [reflexivity|]. by repeat split. Qed.

(** C2 (amended): a create-task request whose title is missing or empty
    leaves the store untouched on both routes and for every JSON body, so no
    record is written and no identifier is added.  The form route answers
    with the redirect to the index page; the JSON route answers 400 with the
    message 'Title required' when the body is falsy (null, empty) or an
    object whose title is missing or empty. *)
Theorem create_without_title_writes_nothing :
  (∀ w form,
     truthy (form_get form "title") = false →
     Monolithic.create_task form w = (Val (Response 302 (Location "/")), w)) ∧
  (∀ w data,
     truthy data = false ∨
       (∃ d, data = VDict d ∧ truthy (dict_get_default d "title" VNone) = false) →
     Monolithic.api_create_task data w =
       (Val (Response 400 (Json (VDict [("error", VStr "Title required")]))), w)) ∧
  (∀ w data,
     truthy (body_title data) = false →
     snd (Monolithic.api_create_task data w) = w).
Proof.
  assert (Hobj : ∀ w d, truthy (dict_get_default d "title" VNone) = false →
            Monolithic.api_create_task (VDict d) w =
              (Val (Response 400 (Json (VDict [("error", VStr "Title required")]))), w)).
  { intros w d H. unfold Monolithic.api_create_task.
    destruct d as [|kv d]; [done|].
    change (truthy (VDict (kv :: d))) with true. cbv iota.
    unfold method_get. rewrite bind_lift. by rewrite H. }
  assert (Hfalsy : ∀ w data, truthy data = false →
            Monolithic.api_create_task data w =
              (Val (Response 400 (Json (VDict [("error", VStr "Title required")]))), w)).
  { intros w data H. unfold Monolithic.api_create_task.
    rewrite H, bind_ret. by rewrite H. }
  split; [|split].
  - intros w form H. unfold Monolithic.create_task. by rewrite H.
  - intros w data [H | (d & -> & H)]; [by apply Hfalsy|by apply Hobj].
  - intros w data H. destruct (truthy data) eqn:Hd; [|by rewrite Hfalsy].
    destruct data as [| | | | |items]; [| | | | |by rewrite Hobj];
      unfold Monolithic.api_create_task; by rewrite Hd.
Qed.

Lemma create_without_title_writes_nothing_witness :
  Monolithic.create_task [("title", "")] (Redis None ∅) =
    (Val (Response 302 (Location "/")), Redis None ∅) ∧
  Monolithic.api_create_task (VDict [("title", VStr "")]) (Redis None ∅) =
    (Val (Response 400 (Json (VDict [("error", VStr "Title required")]))), Redis None ∅) ∧
  Monolithic.api_create_task (VDict [("name", VStr "x")]) (Redis None ∅) =
    (Val (Response 400 (Json (VDict [("error", VStr "Title required")]))), Redis None ∅) ∧
  snd (Monolithic.api_create_task (VList [VStr "buy milk"]) (Redis None ∅)) = Redis None ∅.
Proof.
  split; [|split; [|split]].
  - apply (proj1 create_without_title_writes_nothing). reflexivity.
  - apply (proj1 (proj2 create_without_title_writes_nothing)).
    right. eexists. split; reflexivity.
  - apply (proj1 (proj2 create_without_title_writes_nothing)).
    right. eexists. split; reflexivity.
  - apply (proj2 (proj2 create_without_title_writes_nothing)). reflexivity.
Defined.

(** C3: POST /api/tasks with a non-empty title writes the record
    {title, completed: false} under the newly issued identifier, adds the
    identifier to the identifier set and answers 201 with the record and the
    identifier's decimal string as [id].  The counter is a signed 64-bit
    integer of the store that can still be incremented. *)
Theorem api_create_task_created d items title n :
  dict_get items "title" = Some title →
  truthy title = true →
  stored_int d "task_counter" = Some n →
  int64_min ≤ n < int64_max →
  ids_wf d →
  ∃ d',
    Monolithic.api_create_task (VDict items) (Redis None d) =
      (Val (Response 201 (Json (VDict [("title", title); ("completed", VBool false);
                                       ("id", VStr (str (n + 1)))]))),
       Redis None d') ∧
    d' !! Monolithic.task_key (str (n + 1)) =
      Some (RStr (json.dumps (VDict [("title", title); ("completed", VBool false)]))) ∧
    task_ids d' = task_ids d ∪ {[str (n + 1)]} ∧
    stored_int d' "task_counter" = Some (n + 1).
Proof.
  intros Ht Htr Hn _ Hwf. eexists. split; [by apply api_create_task_ok|].
  destruct (add_task_lookup d (n + 1) title) as (Hc & Hi & Hr & _).
  split; [done|]. split.
  - unfold task_ids at 1. by rewrite Hi.
  - unfold stored_int. by rewrite Hc.
Qed.

Lemma api_create_task_created_witness :
  ∃ d',
    Monolithic.api_create_task (VDict [("title", VStr "buy milk")]) (Redis None ∅) =
      (Val (Response 201 (Json (VDict [("title", VStr "buy milk");
                                       ("completed", VBool false);
                                       ("id", VStr "1")]))),
       Redis None d') ∧
    d' !! "task:1" =
      Some (RStr (json.dumps (VDict [("title", VStr "buy milk");
                                     ("completed", VBool false)]))) ∧
    task_ids d' = task_ids ∅ ∪ {["1"]} ∧
    stored_int d' "task_counter" = Some 1.
Proof.
  apply (api_create_task_created ∅ [("title", VStr "buy milk")] (VStr "buy milk") 0);
    [reflexivity | reflexivity | reflexivity | unfold int64_min, int64_max; lia
    | left; reflexivity].
Defined.

(** ** Toggling *)

(** C4: for an identifier whose record exists, one toggle rewrites the
    record under the same key with the completed flag negated and the other
    fields as they were; a second toggle brings the completion state back,
    and brings the whole store back when the flag was a boolean. *)
Theorem toggle_task_involution d task_id task :
  d !! Monolithic.task_key task_id = Some (RStr (json.dumps (VDict task))) →
  ∃ once twice,
    Monolithic.toggle_task task_id (Redis None d) =
      (Val (Response 302 (Location "/")),
       Redis None (<[Monolithic.task_key task_id := RStr (json.dumps (VDict once))]> d)) ∧
    completed_of once = negb (completed_of task) ∧
    (∀ k, k ≠ "completed" → dict_get once k = dict_get task k) ∧
    Monolithic.toggle_task task_id
      (snd (Monolithic.toggle_task task_id (Redis None d))) =
      (Val (Response 302 (Location "/")),
       Redis None (<[Monolithic.task_key task_id := RStr (json.dumps (VDict twice))]> d)) ∧
    completed_of twice = completed_of task ∧
    (∀ k, k ≠ "completed" → dict_get twice k = dict_get task k) ∧
    (∀ b, dict_get task "completed" = Some (VBool b) →
       twice = task ∧
       snd (Monolithic.toggle_task task_id
              (snd (Monolithic.toggle_task task_id (Redis None d)))) = Redis None d).
Proof.
  intros H.
  set (once := dict_set task "completed" (VBool (negb (completed_of task)))).
  set (twice := dict_set once "completed" (VBool (negb (completed_of once)))).
  assert (H1 := toggle_task_run d task_id task H). fold once in H1.
  assert (H2 := toggle_task_run (<[Monolithic.task_key task_id :=
                                     RStr (json.dumps (VDict once))]> d) task_id once
                  (lookup_insert_eq _ _ _)).
  fold twice in H2. rewrite insert_insert_eq in H2.
  assert (Hc1 : completed_of once = negb (completed_of task))
    by apply completed_of_set.
  assert (Hc2 : completed_of twice = completed_of task).
  { unfold twice. rewrite completed_of_set, Hc1. apply negb_involutive. }
  assert (Hsame : ∀ b, dict_get task "completed" = Some (VBool b) → twice = task).
  { intros b Hb. unfold twice, once.
    rewrite dict_set_set, completed_of_set, negb_involutive.
    apply dict_set_same. unfold completed_of.
    by rewrite (dict_get_default_Some _ _ _ _ Hb). }
  exists once, twice. rewrite H1. cbn [snd]. rewrite H2.
  repeat split; try done.
  - intros k Hk. unfold once. by apply dict_get_set_ne.
  - intros k Hk. unfold twice, once. by rewrite !dict_get_set_ne.
  - by eapply Hsame.
  - cbn [snd]. f_equal. apply insert_id. rewrite H. by erewrite Hsame.
Qed.

Lemma toggle_task_involution_witness :
  let d : gmap string rval :=
    {[ "task:1" := RStr (json.dumps (VDict [("title", VStr "buy milk");
                                            ("completed", VBool false)])) ]} in
  ∃ once twice,
    Monolithic.toggle_task "1" (Redis None d) =
      (Val (Response 302 (Location "/")),
       Redis None (<["task:1" := RStr (json.dumps (VDict once))]> d)) ∧
    completed_of once = true ∧
    (∀ k, k ≠ "completed" →
          dict_get once k = dict_get [("title", VStr "buy milk"); ("completed", VBool false)] k) ∧
    Monolithic.toggle_task "1" (snd (Monolithic.toggle_task "1" (Redis None d))) =
      (Val (Response 302 (Location "/")),
       Redis None (<["task:1" := RStr (json.dumps (VDict twice))]> d)) ∧
    completed_of twice = false ∧
    (∀ k, k ≠ "completed" →
          dict_get twice k = dict_get [("title", VStr "buy milk"); ("completed", VBool false)] k) ∧
    (∀ b, dict_get [("title", VStr "buy milk"); ("completed", VBool false)] "completed"
            = Some (VBool b) →
       twice = [("title", VStr "buy milk"); ("completed", VBool false)] ∧
       snd (Monolithic.toggle_task "1" (snd (Monolithic.toggle_task "1" (Redis None d))))
         = Redis None d).
Proof.
  intros d.
  apply (toggle_task_involution d "1" [("title", VStr "buy milk"); ("completed", VBool false)]).
  reflexivity.
Defined.

(** ** Identifiers without a record *)

(** C8: on an identifier with no stored record, toggle and delete both
    return their redirect without raising; toggle leaves the store as it
    was; delete leaves every task record as it was and can only drop the
    identifier from the identifier set, so it changes nothing at all when
    the identifier is not a member. *)
Theorem missing_record_is_noop d task_id :
  d !! Monolithic.task_key task_id = None →
  ids_wf d →
  Monolithic.toggle_task task_id (Redis None d) =
    (Val (Response 302 (Location "/")), Redis None d) ∧
  ∃ d',
    Monolithic.delete_task task_id (Redis None d) =
      (Val (Response 302 (Location "/")), Redis None d') ∧
    (∀ other, d' !! Monolithic.task_key other = d !! Monolithic.task_key other) ∧
    task_ids d' = task_ids d ∖ {[task_id]} ∧
    (task_id ∉ task_ids d → d' = d).
Proof.
  intros Hnone Hwf. split; [by apply toggle_task_missing|].
  exists (remove_task d task_id). split; [by apply delete_task_run|].
  destruct (remove_task_lookup d task_id) as (_ & Hi & _ & Hk & Ho).
  split; [|split; [done|]].
  - intros other. destruct (decide (other = task_id)) as [->|Hne].
    + by rewrite Hk.
    + by apply Ho.
  - intros Hnotin. unfold remove_task. cbv zeta. rewrite (delete_id _ _ Hnone).
    rewrite difference_notin by done.
    destruct (decide (task_ids d = ∅)) as [He|Hne].
    + apply delete_id. destruct Hwf as [Hw | (s & Hs & Hw)]; [done|].
      exfalso. apply Hs. unfold task_ids in He. by rewrite Hw in He.
    + apply insert_id. unfold task_ids in *.
      destruct (d !! "task_ids") as [[|s]|]; done.
Qed.

Lemma missing_record_is_noop_witness :
  let d : gmap string rval :=
    <["task_ids" := RSet {["1"]}]>
      {[ "task:1" := RStr (json.dumps (VDict [("title", VStr "buy milk");
                                              ("completed", VBool false)])) ]} in
  Monolithic.toggle_task "7" (Redis None d) =
    (Val (Response 302 (Location "/")), Redis None d) ∧
  ∃ d',
    Monolithic.delete_task "7" (Redis None d) =
      (Val (Response 302 (Location "/")), Redis None d') ∧
    (∀ other, d' !! Monolithic.task_key other = d !! Monolithic.task_key other) ∧
    task_ids d' = task_ids d ∖ {["7"]} ∧
    ("7" ∉ task_ids d → d' = d).
Proof.
  intros d. apply (missing_record_is_noop d "7").
  - reflexivity.
  - right. exists {["1"]}. split; [|reflexivity].
    intros He. apply (not_elem_of_empty (C := gset string) "1"). rewrite <- He.
    by apply elem_of_singleton.
Defined.

(** ** Health and counter *)

(** C9: whatever the ping does, GET /api/health answers 200 with
    {status: running, redis: r, container_type: monolithic}, where r is
    'healthy' when the ping returned and 'unhealthy' when it raised; nothing
    is raised to the caller and the store is left as it was. *)
Theorem health_check_never_fails w :
  Monolithic.health_check w =
    (Val (Response 200 (Json (VDict
       [("status", VStr "running");
        ("redis", VStr (match fst (redis_client.ping w) with
                        | Val _ => "healthy"
                        | Raise _ => "unhealthy"
                        end));
        ("container_type", VStr "monolithic")]))), w).
Proof. destruct w as [[e|] d]; reflexivity. Qed.

(** C10: when the increment succeeds with value v, GET /counter answers
    {counter: v} and v is one more than the stored counter (0 for a fresh
    one), so three calls on a fresh counter answer 1, 2, 3; when the store
    raises a connection error, the answer is 503 with an error payload and
    the store is left as it was. *)
Theorem counter_increments :
  (∀ w v w',
     redis_client.incr "visit_counter" w = (Val v, w') →
     PythonApp.counter w = (Val (Response 200 (Json (VDict [("counter", VInt v)]))), w') ∧
     stored_int (db w) "visit_counter" = Some (v - 1) ∧
     stored_int (db w') "visit_counter" = Some v) ∧
  (let w0 := Redis None ∅ in
   let w1 := snd (PythonApp.counter w0) in
   let w2 := snd (PythonApp.counter w1) in
   fst (PythonApp.counter w0) = Val (Response 200 (Json (VDict [("counter", VInt 1)]))) ∧
   fst (PythonApp.counter w1) = Val (Response 200 (Json (VDict [("counter", VInt 2)]))) ∧
   fst (PythonApp.counter w2) = Val (Response 200 (Json (VDict [("counter", VInt 3)])))) ∧
  (∀ w e,
     fault w = Some e →
     is_ConnectionError e = true →
     PythonApp.counter w =
       (Val (Response 503 (Json (VDict [("error", VStr (exn_str e))]))), w)).
Proof.
  split; [|split].
  - intros [[e|] d] v w' H.
    { unfold redis_client.incr in H. by rewrite command_fault in H. }
    unfold PythonApp.counter, try_except.
    rewrite (bind_val _ _ _ _ _ H). split; [done|].
    unfold redis_client.incr, redis_client.command in H. cbn [fault db] in H.
    unfold stored_int. cbn [db].
    destruct (d !! "visit_counter") as [[[[]]|]|]; try discriminate H;
      injection H as <- <-; cbn [db]; rewrite lookup_insert_eq;
      split; f_equal; lia.
  - by vm_compute.
  - intros [f d] e Hf He. cbn [fault] in Hf. subst f.
    unfold PythonApp.counter, try_except, redis_client.incr.
    rewrite (bind_raise _ _ _ _ _ (command_fault _ _ _)). by rewrite He.
Qed.

Lemma counter_increments_witness :
  PythonApp.counter (Redis None {["visit_counter" := RStr (Encoded (VInt 41))]}) =
    (Val (Response 200 (Json (VDict [("counter", VInt 42)]))),
     Redis None {["visit_counter" := RStr (Encoded (VInt 42))]}) ∧
  PythonApp.counter (Redis (Some (Exn ConnectionError "Connection refused")) ∅) =
    (Val (Response 503 (Json (VDict [("error", VStr "Connection refused")]))),
     Redis (Some (Exn ConnectionError "Connection refused")) ∅).
Proof.
  split.
  - apply (proj1 counter_increments
             (Redis None {["visit_counter" := RStr (Encoded (VInt 41))]}) 42
             (Redis None {["visit_counter" := RStr (Encoded (VInt 42))]})).
    vm_compute. reflexivity.
  - apply (proj2 (proj2 counter_increments)
             (Redis (Some (Exn ConnectionError "Connection refused")) ∅)
             (Exn ConnectionError "Connection refused")); reflexivity.
Defined.

(** ** The identifier set and the records *)

(** C7: in every keyspace reachable from the empty store, every member of
    the identifier set has a stored task record, and this still holds after
    any further request, whatever the condition of the store. *)
Theorem ids_have_records_preserved d :
  reachable d →
  ids_have_records d ∧ ∀ f req, ids_have_records (serve f req d).
Proof.
  assert (Hinv : ∀ d', reachable d' → ids_have_records d').
  { intros d' (L & Hag)%reachable_agrees s (e & He & ->)%(agrees_ids _ _ Hag).
    exists (entry_title e), (entry_completed e). apply (agrees_records _ _ Hag e He). }
  intros Hd. split; [by apply Hinv|].
  intros f req. apply Hinv. by constructor.
Qed.

Lemma ids_have_records_preserved_witness :
  let d := serve None (POST_api_tasks (VDict [("title", VStr "buy milk")])) ∅ in
  ids_have_records d ∧ ∀ f req, ids_have_records (serve f req d).
Proof.
  intros d. apply (ids_have_records_preserved d).
  apply reachable_serve, reachable_empty.
Defined.

(** ** Listing order *)

(** C1 fails on the code: identifiers are compared as strings, so after ten
    creations the listing puts task 10 between task 1 and task 2. *)
Theorem get_tasks_ten_tasks_order :
  ∃ tasks,
    Monolithic.get_tasks (n_tasks 10) = (Val tasks, n_tasks 10) ∧
    listed_ids tasks =
      Some ∘ VStr <$> ["1"; "10"; "2"; "3"; "4"; "5"; "6"; "7"; "8"; "9"].
Proof. eexists. split; by vm_compute. Qed.

(** ** Identifiers *)

(** C6: after any history, a run of creations with non-empty titles is
    issued, in order, the identifiers that follow the number of creations
    made so far (which is where the store's counter stands); each is
    greater than all issued before it and is unused in the store. *)
Theorem created_ids_strictly_increase reqs datas :
  Forall has_title datas →
  let d := play reqs ∅ in
  let ns := (λ i, Z.of_nat (creations reqs + i)) <$> seq 1 (length datas) in
  stored_int d "task_counter" = Some (Z.of_nat (creations reqs)) ∧
  fst (Monolithic.api_create_all datas (Redis None d)) =
    Val (zip_with created_response datas ns) ∧
  StronglySorted Z.lt ns ∧
  Forall (unused d) ns.
Proof.
  intros Hall d ns.
  pose proof (play_agrees reqs ∅ _ agrees_empty) as Hag. fold d in Hag.
  pose proof (issued_fold reqs (Ledger 0 [])) as Hn. cbn [issued] in Hn.
  assert (Hns : ns = (λ i, issued (fold_left (λ L req, ledger_step req L) reqs (Ledger 0 []))
                           + Z.of_nat i) <$> seq 1 (length datas)).
  { unfold ns. apply list_fmap_ext. intros i k _. rewrite Hn. lia. }
  split; [|split; [|split]].
  - rewrite (agrees_counter _ _ Hag), Hn; f_equal; lia.
  - rewrite Hns. by apply api_create_all_run.
  - rewrite Hns. apply shifted_seq_sorted.
  - rewrite Hns. apply Forall_fmap, Forall_seq. intros i Hi. cbn.
    eapply agrees_unused; [done|]. lia.
Qed.

Lemma created_ids_strictly_increase_witness :
  let reqs := [POST_api_tasks (VDict [("title", VStr "a")]); POST_delete "1"] in
  let datas := [VDict [("title", VStr "b")]; VDict [("title", VStr "c")]] in
  let d := play reqs ∅ in
  let ns := (λ i, Z.of_nat (creations reqs + i)) <$> seq 1 (length datas) in
  stored_int d "task_counter" = Some (Z.of_nat (creations reqs)) ∧
  fst (Monolithic.api_create_all datas (Redis None d)) =
    Val (zip_with created_response datas ns) ∧
  StronglySorted Z.lt ns ∧
  Forall (unused d) ns.
Proof.
  intros reqs datas.
  apply (created_ids_strictly_increase reqs datas).
  repeat constructor.
Defined.

(** ** Listing after a history *)

(** C5: after a history of requests on an empty store in which every
    deletion names an identifier created earlier and not yet deleted, with
    N creations carrying a title and M deletions, the listing returns N - M
    tasks, and they are the tasks of the ledger: each with the title of its
    creation, the completion state left by its creation or its last toggle,
    and its identifier. *)
Theorem listing_after_history reqs :
  deletions_distinct 0 [] reqs = true →
  ∃ tasks,
    Monolithic.get_tasks (Redis None (play reqs ∅)) = (Val tasks, Redis None (play reqs ∅)) ∧
    length tasks = (creations reqs - deletions reqs)%nat ∧
    tasks ≡ₚ view <$> live (ledger_of reqs).
Proof.
  intros Hok.
  pose proof (play_agrees reqs ∅ _ agrees_empty) as Hag.
  destruct (get_tasks_agrees _ _ Hag) as (tasks & Hrun & Hperm).
  exists tasks. split; [done|]. split; [|done].
  rewrite Hperm, length_fmap.
  pose proof (counted_fold reqs _ _ _ counted_empty Hok) as Hlen.
  cbn [length] in Hlen. lia.
Qed.

Lemma listing_after_history_witness :
  let reqs := [POST_api_tasks (VDict [("title", VStr "buy milk")]);
               POST_tasks [("title", "walk dog")];
               POST_toggle "2";
               POST_delete "1";
               POST_tasks [("title", "")];
               POST_api_tasks (VDict [("title", VStr "call mum")])] in
  ∃ tasks,
    Monolithic.get_tasks (Redis None (play reqs ∅)) = (Val tasks, Redis None (play reqs ∅)) ∧
    length tasks = (creations reqs - deletions reqs)%nat ∧
    tasks ≡ₚ view <$> live (ledger_of reqs).
Proof.
  intros reqs. apply (listing_after_history reqs). vm_compute. reflexivity.
Defined.

(** * Further properties of the handlers *)

(** ** Read-only handlers *)

Lemma readonly_ret {A} (a : A) : readonly (mret a).
Proof. by intros w. Qed.

Lemma readonly_lift {A} (x : result A) : readonly (lift x).
Proof. by intros w. Qed.

Lemma readonly_raise {A} (e : exn) : readonly (raise (A := A) e).
Proof. by intros w. Qed.

Lemma readonly_bind {A B} (m : M A) (f : A → M B) :
  readonly m → (∀ a, readonly (f a)) → readonly (m ≫= f).
Proof.
  intros Hm Hf w. unfold mbind, M_bind. specialize (Hm w).
  destruct (m w) as [[a|e] w']; cbn [snd] in *; subst w'; [apply Hf|done].
Qed.

Lemma readonly_try_except {A} (m : M A) (h : exn → M A) :
  readonly m → (∀ e, readonly (h e)) → readonly (try_except m h).
Proof.
  intros Hm Hh w. unfold try_except. specialize (Hm w).
  destruct (m w) as [[a|e] w']; cbn [snd] in *; subst w'; [done|apply Hh].
Qed.

Lemma readonly_command {A} (run : gmap string rval → result A * gmap string rval) :
  (∀ d, snd (run d) = d) → readonly (redis_client.command run).
Proof.
  intros Hrun [[e|] d]; unfold redis_client.command; cbn [fault db]; [done|].
  specialize (Hrun d). destruct (run d) as [a d']. cbn [snd] in *. by subst d'.
Qed.

Lemma readonly_ping : readonly redis_client.ping.
Proof. by apply readonly_command. Qed.

Lemma readonly_get k : readonly (redis_client.get k).
Proof. apply readonly_command. intros d. by destruct (d !! k) as [[]|]. Qed.

Lemma readonly_smembers k : readonly (redis_client.smembers k).
Proof. apply readonly_command. intros d. by destruct (d !! k) as [[]|]. Qed.

Lemma readonly_get_tasks_loop ids acc : readonly (Monolithic.get_tasks_loop ids acc).
Proof.
  revert acc. induction ids as [|s ids IH]; intros acc; [apply readonly_ret|].
  cbn [Monolithic.get_tasks_loop]. apply readonly_bind; [apply readonly_get|].
  intros [t|]; [|apply IH]. destruct (text_truthy t); [|apply IH].
  apply readonly_bind; [apply readonly_lift|]. intros task. apply IH.
Qed.

Lemma readonly_get_tasks : readonly Monolithic.get_tasks.
Proof.
  unfold Monolithic.get_tasks. apply readonly_bind; [apply readonly_smembers|].
  intros ids. apply readonly_bind; [apply readonly_get_tasks_loop|].
  intros tasks. apply readonly_lift.
Qed.

(** ** Keys a handler can write *)

Lemma readonly_touches {A} (P : string → Prop) (m : M A) : readonly m → touches_only P m.
Proof. intros Hm w k _. by rewrite Hm. Qed.

Lemma touches_weaken {A} (P Q : string → Prop) (m : M A) :
  (∀ k, P k → Q k) → touches_only P m → touches_only Q m.
Proof. intros HPQ Hm w k Hk. apply Hm. intros HP. by apply Hk, HPQ. Qed.

Lemma touches_bind {A B} (P : string → Prop) (m : M A) (f : A → M B) :
  touches_only P m → (∀ a, touches_only P (f a)) → touches_only P (m ≫= f).
Proof.
  intros Hm Hf w k Hk. unfold mbind, M_bind. specialize (Hm w k Hk).
  destruct (m w) as [[a|e] w']; cbn [snd] in *; [|done].
  by rewrite (Hf a w' k Hk).
Qed.

Lemma touches_command {A} (P : string → Prop)
    (run : gmap string rval → result A * gmap string rval) :
  (∀ d k, ¬ P k → snd (run d) !! k = d !! k) → touches_only P (redis_client.command run).
Proof.
  intros Hrun [[e|] d] k Hk; unfold redis_client.command; cbn [fault db]; [done|].
  specialize (Hrun d k Hk). by destruct (run d) as [a d'].
Qed.

Lemma touches_set k t : touches_only (λ k', k' = k) (redis_client.set k t).
Proof.
  apply touches_command. intros d k' Hk. cbn [snd].
  by rewrite lookup_insert_ne by (by intros ->).
Qed.

Lemma touches_delete k : touches_only (λ k', k' = k) (redis_client.delete k).
Proof.
  apply touches_command. intros d k' Hk. cbn [snd].
  by rewrite lookup_delete_ne by (by intros ->).
Qed.

Lemma touches_incr k : touches_only (λ k', k' = k) (redis_client.incr k).
Proof.
  apply touches_command. intros d k' Hk.
  destruct (d !! k) as [[[[]]|]|]; cbn [snd]; try done;
    by rewrite lookup_insert_ne by (by intros ->).
Qed.

Lemma touches_sadd k x : touches_only (λ k', k' = k) (redis_client.sadd k x).
Proof.
  apply touches_command. intros d k' Hk.
  destruct (d !! k) as [[]|]; cbn [snd]; try done;
    by rewrite lookup_insert_ne by (by intros ->).
Qed.

Lemma touches_srem k x : touches_only (λ k', k' = k) (redis_client.srem k x).
Proof.
  apply touches_command. intros d k' Hk.
  destruct (d !! k) as [[|s]|]; cbn [snd]; try done.
  destruct (decide (s ∖ {[x]} = ∅)).
  - by rewrite lookup_delete_ne by (by intros ->).
  - by rewrite lookup_insert_ne by (by intros ->).
Qed.

Lemma touches_toggle_task s :
  touches_only (λ k, k = Monolithic.task_key s) (Monolithic.toggle_task s).
Proof.
  unfold Monolithic.toggle_task.
  apply touches_bind; [apply readonly_touches, readonly_get|]. intros task_data.
  apply touches_bind; [|intros _; apply readonly_touches, readonly_ret].
  destruct task_data as [t|]; [|apply readonly_touches, readonly_ret].
  destruct (text_truthy t); [|apply readonly_touches, readonly_ret].
  apply touches_bind; [apply readonly_touches, readonly_lift|]. intros c.
  apply touches_bind; [apply readonly_touches, readonly_lift|]. intros task.
  apply touches_bind; [apply touches_set|]. intros _.
  apply readonly_touches, readonly_ret.
Qed.

Lemma touches_delete_task s :
  touches_only (λ k, k = Monolithic.task_key s ∨ k = "task_ids") (Monolithic.delete_task s).
Proof.
  unfold Monolithic.delete_task. apply touches_bind.
  - eapply touches_weaken; [|apply touches_delete]. intros k ->. by left.
  - intros _. apply touches_bind.
    + eapply touches_weaken; [|apply touches_srem]. intros k ->. by right.
    + intros _. apply readonly_touches, readonly_ret.
Qed.

Lemma touches_create_steps task_id (task : dict) {A} (k : M A) :
  readonly k →
  touches_only task_namespace
    (redis_client.set (Monolithic.task_key task_id) (json.dumps (VDict task));;
     redis_client.sadd "task_ids" task_id;; k).
Proof.
  intros Hk. apply touches_bind.
  - eapply touches_weaken; [|apply touches_set]. intros k' ->. right; right. by eexists.
  - intros _. apply touches_bind.
    + eapply touches_weaken; [|apply touches_sadd]. intros k' ->. right. by left.
    + intros _. by apply readonly_touches.
Qed.

Lemma touches_get_next_id : touches_only task_namespace Monolithic.get_next_id.
Proof. eapply touches_weaken; [|apply touches_incr]. intros k ->. by left. Qed.

Lemma touches_app req : touches_only task_namespace (Monolithic.app req).
Proof.
  destruct req as [|form|s|s| |data|]; cbn [Monolithic.app].
  - apply readonly_touches. unfold Monolithic.index.
    apply readonly_bind; [apply readonly_get_tasks|]. intros. apply readonly_ret.
  - unfold Monolithic.create_task. apply touches_bind.
    + destruct (truthy _); [|apply readonly_touches, readonly_ret].
      apply touches_bind; [apply touches_get_next_id|]. intros n.
      apply touches_create_steps, readonly_ret.
    + intros _. apply readonly_touches, readonly_ret.
  - eapply touches_weaken; [|apply touches_toggle_task]. intros k ->.
    right; right. by eexists.
  - eapply touches_weaken; [|apply touches_delete_task]. intros k [->| ->].
    + right; right. by eexists.
    + right. by left.
  - apply readonly_touches. unfold Monolithic.api_get_tasks.
    apply readonly_bind; [apply readonly_get_tasks|]. intros. apply readonly_ret.
  - unfold Monolithic.api_create_task. apply touches_bind.
    + destruct (truthy data); apply readonly_touches;
        [apply readonly_lift|apply readonly_ret].
    + intros title. destruct (truthy title); [|apply readonly_touches, readonly_ret].
      apply touches_bind; [apply touches_get_next_id|]. intros n.
      apply touches_bind; [apply readonly_touches, readonly_lift|]. intros t.
      apply touches_create_steps, readonly_ret.
  - apply readonly_touches. unfold Monolithic.health_check.
    apply readonly_bind; [|intros; apply readonly_ret].
    apply readonly_try_except; [|intros; apply readonly_ret].
    apply readonly_bind; [apply readonly_ping|]. intros. apply readonly_ret.
Qed.

Lemma smembers_any k d :
  redis_client.smembers k (Redis None d) =
    (match d !! k with
     | None => Val ∅
     | Some (RSet s) => Val s
     | Some (RStr _) => Raise WRONGTYPE
     end, Redis None d).
Proof.
  unfold redis_client.smembers, redis_client.command. cbn [fault db].
  by destruct (d !! k) as [[]|].
Qed.

(** The listing reads nothing but the identifier set and the task records. *)
Lemma get_tasks_loop_ext d1 d2 ids acc :
  (∀ s, d1 !! Monolithic.task_key s = d2 !! Monolithic.task_key s) →
  fst (Monolithic.get_tasks_loop ids acc (Redis None d1)) =
  fst (Monolithic.get_tasks_loop ids acc (Redis None d2)).
Proof.
  intros Hrec. revert acc. induction ids as [|s ids IH]; intros acc; [done|].
  cbn [Monolithic.get_tasks_loop]. unfold mbind at 1 3, M_bind at 1 3.
  rewrite !get_run, Hrec.
  destruct (d2 !! Monolithic.task_key s) as [[t|]|]; [|done|apply IH].
  destruct (text_truthy t); [|apply IH].
  destruct (setitem (json.loads t) "id" (VStr s)) as [task|e]; [|done].
  rewrite !bind_lift. apply IH.
Qed.

Lemma get_tasks_ext d1 d2 :
  d1 !! "task_ids" = d2 !! "task_ids" →
  (∀ s, d1 !! Monolithic.task_key s = d2 !! Monolithic.task_key s) →
  fst (Monolithic.get_tasks (Redis None d1)) = fst (Monolithic.get_tasks (Redis None d2)).
Proof.
  intros Hids Hrec. unfold Monolithic.get_tasks.
  unfold mbind at 1 3, M_bind at 1 3. rewrite !smembers_any, Hids.
  destruct (d2 !! "task_ids") as [[t|ids]|]; [done| |];
    unfold mbind, M_bind;
    match goal with
    | |- context [Monolithic.get_tasks_loop ?l ?a (Redis None d1)] =>
        pose proof (get_tasks_loop_ext d1 d2 l a Hrec) as Hl;
        destruct (Monolithic.get_tasks_loop l a (Redis None d1)) as [r1 w1];
        destruct (Monolithic.get_tasks_loop l a (Redis None d2)) as [r2 w2]
    end; cbn [fst] in Hl; subst r2; by destruct r1.
Qed.

Lemma strip_prefix_spec p k s : strip_prefix p k = Some s ↔ k = p +:+ s.
Proof.
  revert k. induction p as [|a p IH]; intros k; cbn [strip_prefix String.append].
  - split; [by intros [= ->]|by intros ->].
  - destruct k as [|b k]; [done|].
    destruct (Ascii.eqb_spec a b) as [->|Hne].
    + rewrite IH. split; [by intros ->|by intros [= ->]].
    + split; [done|]. intros [= ? _]. by subst.
Qed.

Lemma task_key_strip k s : strip_prefix "task:" k = Some s ↔ k = Monolithic.task_key s.
Proof. apply strip_prefix_spec. Qed.

Lemma task_namespace_dec k : task_namespace k ∨ ¬ task_namespace k.
Proof.
  unfold task_namespace.
  destruct (decide (k = "task_counter")) as [->|H1]; [by left; left|].
  destruct (decide (k = "task_ids")) as [->|H2]; [by left; right; left|].
  destruct (strip_prefix "task:" k) as [s|] eqn:E.
  - left. right; right. exists s. by apply task_key_strip.
  - right. intros [?|[?|[s Hs]]]; [done|done|].
    apply task_key_strip in Hs. congruence.
Qed.

Lemma visit_counter_outside : ¬ task_namespace "visit_counter".
Proof.
  intros [H|[H|[s H]]]; [done|done|].
  apply task_key_strip in H. done.
Qed.

Lemma serve_frame f req d k : ¬ task_namespace k → serve f req d !! k = d !! k.
Proof. intros Hk. unfold serve. by apply (touches_app req (Redis f d) k). Qed.

Lemma reachable_namespace d k : reachable d → is_Some (d !! k) → task_namespace k.
Proof.
  induction 1 as [|d f req _ IH]; intros Hk.
  - rewrite lookup_empty in Hk. by destruct Hk.
  - destruct (task_namespace_dec k) as [|Hno]; [done|].
    rewrite serve_frame in Hk by done. by apply IH.
Qed.

(** ** Handlers of GET requests *)

(** X1: the handlers of the GET routes of both services leave the store
    exactly as they found it, whatever it holds and whether it answers or
    not. *)
Theorem get_handlers_change_nothing w :
  snd (Monolithic.index w) = w ∧
  snd (Monolithic.api_get_tasks w) = w ∧
  snd (Monolithic.health_check w) = w ∧
  (∀ host, snd (PythonApp.home host w) = w) ∧
  snd (PythonApp.health w) = w.
Proof.
  split; [|split; [|split; [|split]]].
  - apply readonly_bind; [apply readonly_get_tasks|]. intros. apply readonly_ret.
  - apply readonly_bind; [apply readonly_get_tasks|]. intros. apply readonly_ret.
  - apply readonly_bind; [|intros; apply readonly_ret].
    apply readonly_try_except; [|intros; apply readonly_ret].
    apply readonly_bind; [apply readonly_ping|]. intros. apply readonly_ret.
  - intros host. apply readonly_ret.
  - apply readonly_try_except.
    + apply readonly_bind; [apply readonly_ping|]. intros. apply readonly_ret.
    + intros e. destruct (is_ConnectionError e); [apply readonly_ret|apply readonly_raise].
Qed.

(** ** Keys written by the handlers *)

(** X2: a toggle changes no key but the record of its identifier; the
    identifier set and the counter are as before, on every store. *)
Theorem toggle_task_changes_one_key w task_id :
  (∀ k, k ≠ Monolithic.task_key task_id →
        db (snd (Monolithic.toggle_task task_id w)) !! k = db w !! k) ∧
  task_ids (db (snd (Monolithic.toggle_task task_id w))) = task_ids (db w) ∧
  stored_int (db (snd (Monolithic.toggle_task task_id w))) "task_counter" =
    stored_int (db w) "task_counter".
Proof.
  assert (H : ∀ k, k ≠ Monolithic.task_key task_id →
                   db (snd (Monolithic.toggle_task task_id w)) !! k = db w !! k).
  { intros k Hk. by apply touches_toggle_task. }
  split; [done|]. split.
  - apply task_ids_ext, H, not_eq_sym, task_key_not_ids.
  - apply stored_int_ext, H, not_eq_sym, task_key_not_counter.
Qed.

(** X3: the two services can share a store: no request of the Task Service
    changes a key outside task_counter, task_ids and task:<id> (so never
    visit_counter), GET /counter changes no key but visit_counter, and the
    task listing after a GET /counter is the listing before it. *)
Theorem services_do_not_interfere :
  (∀ f req d k, ¬ task_namespace k → serve f req d !! k = d !! k) ∧
  (∀ f req d, serve f req d !! "visit_counter" = d !! "visit_counter") ∧
  (∀ w k, k ≠ "visit_counter" → db (snd (PythonApp.counter w)) !! k = db w !! k) ∧
  (∀ w, fst (Monolithic.get_tasks (snd (PythonApp.counter w))) =
        fst (Monolithic.get_tasks w)).
Proof.
  assert (Hc : ∀ w, fault (snd (PythonApp.counter w)) = fault w ∧
                    ∀ k, k ≠ "visit_counter" →
                         db (snd (PythonApp.counter w)) !! k = db w !! k).
  { intros [[e|] d]; unfold PythonApp.counter, try_except, redis_client.incr.
    - rewrite (bind_raise _ _ _ _ _ (command_fault _ _ _)).
      by destruct (is_ConnectionError e).
    - unfold mbind, M_bind, redis_client.command. cbn [fault db].
      destruct (d !! "visit_counter") as [[[[]]|]|]; cbn; split; try done;
        intros k Hk; by rewrite lookup_insert_ne. }
  split; [|split; [|split]].
  - intros f req d k. apply serve_frame.
  - intros f req d. apply serve_frame, visit_counter_outside.
  - intros w. apply Hc.
  - intros w. destruct (Hc w) as [Hf Hk].
    destruct (snd (PythonApp.counter w)) as [f' d'] eqn:E, w as [f d].
    cbn [fault db] in *. subst f'. destruct f as [e|]; [done|].
    apply get_tasks_ext.
    + by apply Hk.
    + intros s. apply Hk. unfold Monolithic.task_key. by cbv [String.append].
Qed.

(** X4: in a keyspace reachable from the empty store every key is
    task_counter, task_ids or the record key of a member of the identifier
    set: there are no records without their identifier in the set and no
    other keys. *)
Theorem reachable_keys d k :
  reachable d →
  is_Some (d !! k) →
  k = "task_counter" ∨ k = "task_ids" ∨
  ∃ s, k = Monolithic.task_key s ∧ s ∈ task_ids d.
Proof.
  intros Hd Hk. destruct (reachable_namespace d k Hd Hk) as [?|[?|[s ->]]];
    [by left|by right; left|].
  right; right. exists s. split; [done|].
  destruct (reachable_agrees d Hd) as [L Hag].
  destruct (decide (s ∈ (str ∘ entry_id) <$> live L)) as [Hin|Hout].
  - apply list_elem_of_fmap in Hin as (e & -> & He).
    apply (agrees_ids _ _ Hag). by exists e.
  - rewrite (agrees_absent _ _ Hag) in Hk; [by destruct Hk|].
    intros e He ->. apply Hout. by apply (list_elem_of_fmap_2 (str ∘ entry_id)).
Qed.

Lemma reachable_keys_witness :
  let d := play [POST_tasks [("title", "buy milk")]; POST_tasks [("title", "walk dog")];
                 POST_delete "1"] ∅ in
  "task:2" = "task_counter" ∨ "task:2" = "task_ids" ∨
  ∃ s, "task:2" = Monolithic.task_key s ∧ s ∈ task_ids d.
Proof.
  intros d. apply (reachable_keys d "task:2").
  - apply play_reachable, reachable_empty.
  - vm_compute. eexists. reflexivity.
Defined.

(** ** The order of the listing *)

Lemma ltb_lt a b : String.ltb a b = true ↔ String_as_OT.lt a b.
Proof.
  rewrite <- String_as_OT.cmp_lt. unfold String.ltb, String_as_OT.cmp.
  by destruct (String.compare a b).
Qed.

Lemma ltb_trans a b c :
  String.ltb a b = true → String.ltb b c = true → String.ltb a c = true.
Proof. rewrite !ltb_lt. apply String_as_OT.lt_trans. Qed.

Lemma ltb_irrefl a : String.ltb a a = false.
Proof.
  pose proof (proj2 (String_as_OT.cmp_eq a a) eq_refl) as H.
  unfold String.ltb. unfold String_as_OT.cmp in H. by rewrite H.
Qed.

Lemma ltb_total a b : a ≠ b → String.ltb a b = false → String.ltb b a = true.
Proof.
  unfold String.ltb. rewrite (String.compare_antisym b a).
  destruct (String.compare a b) eqn:E; try done.
  by apply String.compare_eq_iff in E.
Qed.

Lemma ltb_asym a b : String.ltb a b = true → String.ltb b a = false.
Proof.
  intros H. destruct (String.ltb b a) eqn:E; [|done].
  by rewrite <- (ltb_irrefl a), (ltb_trans a b a).
Qed.

Lemma not_ltb_trans a b c :
  String.ltb b a = false → String.ltb c b = false → String.ltb c a = false.
Proof.
  intros Hab Hbc. destruct (String.ltb c a) eqn:Hca; [|done].
  destruct (decide (a = b)) as [->|Hne]; [congruence|].
  by rewrite <- Hbc, (ltb_trans c a b Hca (ltb_total b a (not_eq_sym Hne) Hab)).
Qed.

Section sorted_order.
Context {A : Type} (key : A → value) (skey : A → string).

Lemma insert_sorted_sorted x l l' :
  (∀ y, y ∈ x :: l → key y = VStr (skey y)) →
  StronglySorted (λ a b, String.ltb (skey b) (skey a) = false) l →
  insert_sorted key x l = Val l' →
  l' ≡ₚ x :: l ∧ StronglySorted (λ a b, String.ltb (skey b) (skey a) = false) l'.
Proof.
  revert l'. induction l as [|y l IH]; intros l' Hk Hs.
  - intros [= <-]. split; [done|]. repeat constructor.
  - cbn [insert_sorted]. rewrite (Hk x), (Hk y) by (by repeat constructor).
    cbn [lt mbind result_bind].
    apply StronglySorted_inv in Hs as [Hs Hy].
    destruct (String.ltb (skey y) (skey x)) eqn:Hyx.
    + destruct (insert_sorted key x l) as [r|e] eqn:Hr; [|done].
      intros [= <-]. destruct (IH r) as [Hp Hsr]; [|done|done|].
      { intros z Hz. apply Hk. apply elem_of_cons in Hz as [->|Hz]; [by left|].
        by right; right. }
      split; [rewrite Hp; apply Permutation_swap|].
      constructor; [done|]. rewrite Hp. constructor; [by apply ltb_asym|done].
    + intros [= <-]. split; [done|].
      constructor; [by constructor|]. constructor; [done|].
      eapply Forall_impl; [exact Hy|]. intros z Hz. cbn in Hz.
      by eapply not_ltb_trans.
Qed.

Lemma sorted_sorted l l' :
  (∀ y, y ∈ l → key y = VStr (skey y)) →
  sorted key l = Val l' →
  l' ≡ₚ l ∧ StronglySorted (λ a b, String.ltb (skey b) (skey a) = false) l'.
Proof.
  revert l'. induction l as [|x l IH]; intros l' Hk.
  - intros [= <-]. split; [done|constructor].
  - cbn [sorted]. destruct (sorted key l) as [s|e] eqn:Hs; [|done].
    cbn [mbind result_bind]. intros Hi.
    destruct (IH s) as [Hp Hss]; [intros y Hy; apply Hk; by right|done|].
    destruct (insert_sorted_sorted x s l') as [Hp' Hs']; [|done|done|].
    { intros y Hy. apply Hk. by rewrite <- Hp. }
    split; [by rewrite Hp', Hp|done].
Qed.

Lemma sorted_strict l :
  NoDup (skey <$> l) →
  StronglySorted (λ a b, String.ltb (skey b) (skey a) = false) l →
  StronglySorted (λ a b, String.ltb (skey a) (skey b) = true) l.
Proof.
  induction l as [|x l IH]; [constructor|].
  rewrite fmap_cons, NoDup_cons. intros [Hx Hnd] [Hs Hf]%StronglySorted_inv.
  constructor; [by apply IH|].
  apply Forall_forall. intros y Hy. rewrite Forall_forall in Hf.
  apply ltb_total; [|by apply Hf].
  intros E. apply Hx. rewrite <- E. by apply list_elem_of_fmap_2.
Qed.
End sorted_order.

Lemma id_string_view e : id_string (view e) = str (entry_id e).
Proof. done. Qed.

(** On a keyspace that agrees with a ledger the listing is the ledger's
    views, in ascending order of the identifier strings. *)
Lemma get_tasks_agrees_sorted d L :
  agrees d L →
  ∃ tasks,
    Monolithic.get_tasks (Redis None d) = (Val tasks, Redis None d) ∧
    tasks ≡ₚ view <$> live L ∧
    StronglySorted (λ a b, String.ltb (id_string a) (id_string b) = true) tasks.
Proof.
  intros Hag. destruct (get_tasks_agrees d L Hag) as (tasks & Hrun & Hperm).
  exists tasks. split; [done|]. split; [done|].
  assert (Hviews : ∀ s, s ∈ elements (task_ids d) →
            ∃ e, e ∈ live L ∧ s = str (entry_id e) ∧ stored_task d s = view e).
  { intros s (e & He & ->)%elem_of_elements%(agrees_ids _ _ Hag).
    exists e. split; [done|]. split; [done|]. by eapply stored_task_view. }
  assert (Hrecs : ∀ s, s ∈ elements (task_ids d) →
            ∃ task, d !! Monolithic.task_key s = Some (RStr (Encoded (VDict task)))).
  { intros s (e & He & -> & _)%Hviews. eexists. apply (agrees_records _ _ Hag e He). }
  unfold Monolithic.get_tasks in Hrun.
  rewrite (bind_val _ _ _ _ _ (smembers_run _ (agrees_wf _ _ Hag))) in Hrun.
  rewrite (bind_val _ _ _ _ _ (get_tasks_loop_run d _ [] Hrecs)) in Hrun.
  rewrite app_nil_l in Hrun. unfold lift in Hrun.
  injection Hrun as Hsorted.
  assert (Hkeys : ∀ y, y ∈ stored_task d <$> elements (task_ids d) →
            dict_get_default y "id" (VInt 0) = VStr (id_string y)).
  { intros y (s & -> & (e & _ & _ & ->)%Hviews)%list_elem_of_fmap. done. }
  destruct (sorted_sorted (λ x : dict, dict_get_default x "id" (VInt 0)) id_string
              _ _ Hkeys Hsorted) as [_ Hs].
  apply sorted_strict; [|done].
  rewrite Hperm, <- list_fmap_compose.
  rewrite (list_fmap_ext _ (str ∘ entry_id) _ (λ i e _, id_string_view e)).
  rewrite list_fmap_compose. apply NoDup_fmap_2; [|apply (agrees_nodup _ _ Hag)].
  intros a b. apply str_inj.
Qed.


Lemma StronglySorted_filter {A} (R : relation A) (P : A → Prop)
    `{!∀ x, Decision (P x)} l :
  StronglySorted R l → StronglySorted R (filter P l).
Proof.
  induction 1 as [|x l Hs IH Hx]; [constructor|].
  destruct (decide (P x)).
  - rewrite filter_cons_True by done. constructor; [done|].
    apply Forall_forall. intros y [_ Hy]%list_elem_of_filter.
    rewrite Forall_forall in Hx. by apply Hx.
  - by rewrite filter_cons_False.
Qed.

Lemma StronglySorted_toggle s l :
  StronglySorted (λ e e', entry_id e < entry_id e') l →
  StronglySorted (λ e e', entry_id e < entry_id e') (toggle_entry s <$> l).
Proof.
  induction 1 as [|x l Hs IH Hx]; [constructor|].
  rewrite fmap_cons. constructor; [done|].
  apply Forall_fmap. eapply Forall_impl; [exact Hx|].
  intros e He. cbn. by rewrite !toggle_entry_id.
Qed.

Lemma ordered_create L t :
  ordered L →
  ordered (Ledger (issued L + 1) (live L ++ [Entry (issued L + 1) t false])).
Proof.
  intros (Hs & H0 & Hr). split; [|split]; cbn [live issued].
  - apply StronglySorted_app_2; [|done|repeat constructor].
    intros e e' He ->%list_elem_of_singleton. cbn. specialize (Hr e He). lia.
  - lia.
  - intros e [He| ->%list_elem_of_singleton]%elem_of_app; cbn.
    + specialize (Hr e He). lia.
    + lia.
Qed.

Lemma ordered_step req L : ordered L → ordered (ledger_step req L).
Proof.
  intros HL. pose proof HL as (Hs & H0 & Hr).
  destruct req as [|form|s|s| |data|]; cbn [ledger_step]; try done.
  - destruct (request_title _) as [t|]; [by apply ordered_create|done].
  - split; [|split]; cbn [live issued]; [by apply StronglySorted_toggle|done|].
    intros e' (e & -> & He)%list_elem_of_fmap. rewrite toggle_entry_id. by apply Hr.
  - split; [|split]; cbn [live issued]; [by apply StronglySorted_filter|done|].
    intros e [_ He]%list_elem_of_filter. by apply Hr.
  - destruct (request_title _) as [t|]; [by apply ordered_create|done].
Qed.

Lemma ordered_fold reqs L :
  ordered L → ordered (fold_left (λ L req, ledger_step req L) reqs L).
Proof.
  revert L. induction reqs as [|req reqs IH]; intros L HL; [done|].
  cbn [fold_left]. by apply IH, ordered_step.
Qed.

(** Below ten, the decimal strings are ordered as the numbers. *)
Lemma str_digits_lt a b : 1 ≤ a → a < b → b ≤ 9 → String.ltb (str a) (str b) = true.
Proof.
  intros Ha Hab Hb.
  assert (Hall : forallb (λ x, forallb (λ y, implb (Z.ltb x y) (String.ltb (str x) (str y)))
                                 (seqZ 1 9)) (seqZ 1 9) = true) by (by vm_compute).
  rewrite forallb_forall in Hall.
  specialize (Hall a). rewrite forallb_forall in Hall.
  assert (Hin : ∀ x, 1 ≤ x ≤ 9 → In x (seqZ 1 9)).
  { intros x Hx. apply list_elem_of_In, elem_of_seqZ. lia. }
  specialize (Hall (Hin a ltac:(lia)) b (Hin b ltac:(lia))).
  rewrite (proj2 (Z.ltb_lt a b) Hab) in Hall. done.
Qed.

(** X6: as long as at most nine identifiers have been issued, the listing
    is exactly the ledger's tasks in the order of their creation. *)
Theorem listing_in_creation_order reqs :
  (creations reqs ≤ 9)%nat →
  Monolithic.get_tasks (Redis None (play reqs ∅)) =
    (Val (view <$> live (ledger_of reqs)), Redis None (play reqs ∅)).
Proof.
  intros Hn.
  destruct (get_tasks_agrees_sorted _ _ (play_agrees reqs ∅ _ agrees_empty))
    as (tasks & Hrun & Hperm & Hs).
  rewrite Hrun. do 2 f_equal.
  assert (Hord : ordered (ledger_of reqs)).
  { apply ordered_fold. split; [constructor|]. split; [done|].
    intros e ?%elem_of_nil. done. }
  destruct Hord as (Ho & _ & Hr).
  pose proof (issued_fold reqs (Ledger 0 [])) as Hi. cbn [issued] in Hi.
  fold (ledger_of reqs) in Hi.
  apply (StronglySorted_unique_strong
           (λ a b, String.ltb (id_string a) (id_string b) = true)); [|done| |done].
  - intros x y _ _ Hxy Hyx. apply ltb_asym in Hxy. congruence.
  - revert Ho Hr. generalize (live (ledger_of reqs)). intros l Ho Hr.
    induction Ho as [|e l Hl IH He]; [constructor|].
    rewrite fmap_cons. constructor.
    + apply IH. intros e' He'. apply Hr. by right.
    + apply Forall_fmap, Forall_forall. intros e' He'.
      change (String.ltb (str (entry_id e)) (str (entry_id e')) = true).
      rewrite Forall_forall in He.
      apply str_digits_lt.
      * apply (Hr e). by left.
      * by apply He.
      * assert (e' ∈ e :: l) as He'' by (by right). specialize (Hr e' He''). lia.
Qed.

Lemma listing_in_creation_order_witness :
  let reqs := [POST_tasks [("title", "buy milk")];
               POST_api_tasks (VDict [("title", VStr "walk dog")]);
               POST_toggle "1"] in
  Monolithic.get_tasks (Redis None (play reqs ∅)) =
    (Val (view <$> live (ledger_of reqs)), Redis None (play reqs ∅)).
Proof.
  intros reqs. apply (listing_in_creation_order reqs). vm_compute. lia.
Defined.

(** ** Deleting *)

Lemma ids_wf_lookup d :
  ids_wf d →
  d !! "task_ids" = if decide (task_ids d = ∅) then None else Some (RSet (task_ids d)).
Proof.
  unfold ids_wf, task_ids. intros [H | (s & Hs & H)]; rewrite H.
  - by rewrite decide_True.
  - by rewrite decide_False.
Qed.

Lemma remove_task_twice d s :
  ids_wf d → remove_task (remove_task d s) s = remove_task d s.
Proof.
  intros Hwf. destruct (remove_task_lookup d s) as (Rwf & Ri & _ & Rk & _).
  pose proof (ids_wf_lookup _ Rwf) as Hl.
  unfold remove_task at 1. cbv zeta. rewrite (delete_id _ _ Rk).
  assert (Hd : task_ids (remove_task d s) ∖ {[s]} = task_ids (remove_task d s)).
  { apply difference_notin. rewrite Ri. intros [_ H]%elem_of_difference.
    apply H. by apply elem_of_singleton. }
  rewrite Hd.
  destruct (decide (task_ids (remove_task d s) = ∅)).
  - by apply delete_id.
  - by apply insert_id.
Qed.

(** X7: deleting is idempotent: a second delete of the same identifier
    returns the same redirect and leaves the store as the first one left
    it. *)
Theorem delete_task_idempotent d task_id :
  ids_wf d →
  Monolithic.delete_task task_id (snd (Monolithic.delete_task task_id (Redis None d))) =
    (Val (Response 302 (Location "/")),
     snd (Monolithic.delete_task task_id (Redis None d))).
Proof.
  intros Hwf. rewrite (delete_task_run _ _ Hwf). cbn [snd].
  destruct (remove_task_lookup d task_id) as (Rwf & _).
  rewrite (delete_task_run _ _ Rwf). by rewrite remove_task_twice.
Qed.

Lemma delete_task_idempotent_witness :
  let d := play [POST_tasks [("title", "buy milk")]; POST_tasks [("title", "walk dog")]] ∅ in
  Monolithic.delete_task "1" (snd (Monolithic.delete_task "1" (Redis None d))) =
    (Val (Response 302 (Location "/")),
     snd (Monolithic.delete_task "1" (Redis None d))).
Proof.
  intros d. apply (delete_task_idempotent d "1").
  right. exists {["1"; "2"]}. split; [|by vm_compute].
  intros He. apply (not_elem_of_empty (C := gset string) "1"). rewrite <- He.
  apply elem_of_union_l. by apply elem_of_singleton.
Defined.

(** X8: creating a task and deleting it again brings the keyspace back to
    what it was, except that the counter has advanced: the identifier is
    not issued a second time. *)
Theorem create_then_delete reqs form :
  truthy (form_get form "title") = true →
  let d := play reqs ∅ in
  let n := Z.of_nat (creations reqs) + 1 in
  serve None (POST_delete (str n)) (serve None (POST_tasks form) d) =
    <["task_counter" := RStr (Encoded (VInt n))]> d.
Proof.
  intros Ht d n.
  pose proof (play_agrees reqs ∅ _ agrees_empty) as Hag. fold d in Hag.
  pose proof (issued_fold reqs (Ledger 0 [])) as Hi. cbn [issued] in Hi.
  set (L := fold_left _ reqs _) in *.
  assert (Hn : n = issued L + 1) by (unfold n; lia).
  destruct (agrees_unused d L n Hag) as [Hnotin Hnone]; [lia|].
  pose proof (agrees_add_task d L (form_get form "title") Hag) as Hag'.
  rewrite <- Hn in Hag'.
  unfold serve. cbn [Monolithic.app].
  rewrite (create_task_ok _ _ _ Ht (agrees_counter _ _ Hag) (agrees_wf _ _ Hag)).
  cbn [snd db]. rewrite <- Hn.
  rewrite (delete_task_run _ _ (agrees_wf _ _ Hag')). cbn [snd db].
  destruct (add_task_lookup d n (form_get form "title")) as (_ & Ai & _ & _).
  pose proof (ids_wf_lookup d (agrees_wf _ _ Hag)) as Hl.
  assert (Hti : task_ids (add_task d n (form_get form "title")) = task_ids d ∪ {[str n]})
    by (unfold task_ids at 1; by rewrite Ai).
  unfold remove_task. cbv zeta. rewrite Hti.
  assert (Hd : (task_ids d ∪ {[str n]}) ∖ {[str n]} = task_ids d).
  { apply set_eq. intros x.
    rewrite elem_of_difference, elem_of_union, elem_of_singleton.
    split; [by intros [[?|?] ?]|]. intros Hx. split; [by left|]. by intros ->. }
  rewrite Hd. unfold add_task.
  apply map_eq. intros k.
  destruct (decide (task_ids d = ∅)) as [He|Hne].
  - rewrite lookup_delete. case_decide as E1; [subst k|].
    { rewrite lookup_insert_ne by done. by rewrite Hl. }
    rewrite lookup_delete. case_decide as E2; [subst k|].
    { rewrite lookup_insert_ne by (apply not_eq_sym, task_key_not_counter). by rewrite Hnone. }
    rewrite lookup_insert_ne by done. by rewrite lookup_insert_ne by done.
  - rewrite lookup_insert. case_decide as E1; [subst k|].
    { rewrite lookup_insert_ne by done. by rewrite Hl. }
    rewrite lookup_delete. case_decide as E2; [subst k|].
    { rewrite lookup_insert_ne by (apply not_eq_sym, task_key_not_counter). by rewrite Hnone. }
    rewrite lookup_insert_ne by done. by rewrite lookup_insert_ne by done.
Qed.

Lemma create_then_delete_witness :
  let reqs := [POST_tasks [("title", "buy milk")]; POST_toggle "1"] in
  let form := [("title", "walk dog")] in
  let d := play reqs ∅ in
  let n := Z.of_nat (creations reqs) + 1 in
  serve None (POST_delete (str n)) (serve None (POST_tasks form) d) =
    <["task_counter" := RStr (Encoded (VInt n))]> d.
Proof.
  intros reqs form. apply (create_then_delete reqs form). reflexivity.
Defined.

(** ** The two creation routes *)

(** X9: the form route and the JSON route make the same writes: on every
    store, POST /tasks with a form and POST /api/tasks with the body
    {title: <the form's title>} leave the same store behind. *)
Theorem create_routes_write_the_same form w :
  snd (Monolithic.create_task form w) =
  snd (Monolithic.api_create_task (VDict [("title", form_get form "title")]) w).
Proof.
  unfold Monolithic.create_task, Monolithic.api_create_task.
  change (truthy (VDict [("title", form_get form "title")])) with true. cbv iota.
  change (method_get (VDict [("title", form_get form "title")]) "title" VNone)
    with (Val (form_get form "title")).
  change (getitem (VDict [("title", form_get form "title")]) "title")
    with (Val (form_get form "title")).
  rewrite bind_lift. cbv beta.
  destruct (truthy (form_get form "title")); [|done].
  unfold mbind, M_bind, lift, mret, M_ret.
  destruct (Monolithic.get_next_id w) as [[n|e] w1]; [|done].
  destruct (redis_client.set _ _ w1) as [[b|e] w2]; [|done].
  by destruct (redis_client.sadd _ _ w2) as [[c|e] w3].
Qed.

(** X10: a JSON body that is truthy but not an object (an array, a string,
    a number, true) makes POST /api/tasks raise AttributeError instead of
    answering 400; nothing is written. *)
Theorem api_create_task_rejects_non_objects data w :
  truthy data = true →
  (∀ items, data ≠ VDict items) →
  ∃ e, Monolithic.api_create_task data w = (Raise e, w) ∧ exn_cls e = AttributeError.
Proof.
  intros Ht Hno. unfold Monolithic.api_create_task. rewrite Ht.
  destruct data as [| | | | |items]; try (eexists; split; reflexivity).
  by destruct (Hno items).
Qed.

Lemma api_create_task_rejects_non_objects_witness :
  ∃ e, Monolithic.api_create_task (VList [VStr "buy milk"]) (Redis None ∅) =
         (Raise e, Redis None ∅) ∧ exn_cls e = AttributeError.
Proof.
  apply (api_create_task_rejects_non_objects (VList [VStr "buy milk"]) (Redis None ∅));
    [reflexivity|done].
Defined.

(** ** Failing stores *)

(** X11: on a store that raises, the two health endpoints differ: the
    monolithic one answers 200 with redis 'unhealthy' whatever the error,
    the python-app one answers 503 on a connection error and lets any other
    error (a timeout, a response error) reach the caller. *)
Theorem health_endpoints_on_failure w e :
  fault w = Some e →
  (∃ r, Monolithic.health_check w = (Val r, w) ∧ status r = 200) ∧
  PythonApp.health w =
    (if is_ConnectionError e
     then Val (Response 503 (Json (VDict [("status", VStr "unhealthy");
                                          ("redis", VStr "disconnected")])))
     else Raise e, w).
Proof.
  destruct w as [f d]. cbn [fault]. intros ->. split.
  - eexists. split; reflexivity.
  - unfold PythonApp.health, try_except, redis_client.ping.
    rewrite (bind_raise _ _ _ _ _ (command_fault _ _ _)).
    by destruct (is_ConnectionError e).
Qed.

Lemma health_endpoints_on_failure_witness :
  let w := Redis (Some (Exn TimeoutError "Timeout reading from socket")) ∅ in
  (∃ r, Monolithic.health_check w = (Val r, w) ∧ status r = 200) ∧
  PythonApp.health w = (Raise (Exn TimeoutError "Timeout reading from socket"), w).
Proof.
  intros w.
  apply (health_endpoints_on_failure w (Exn TimeoutError "Timeout reading from socket")).
  reflexivity.
Defined.

(** X12: GET /counter only turns connection errors into a 503: when the
    counter key does not hold an integer the store's response error reaches
    the caller, and so does any other error that is not a connection error;
    the store is left as it was. *)
Theorem counter_raises_other_errors :
  (∀ d, stored_int d "visit_counter" = None →
        ∃ e, PythonApp.counter (Redis None d) = (Raise e, Redis None d) ∧
             exn_cls e = ResponseError) ∧
  (∀ w e, fault w = Some e → is_ConnectionError e = false →
          PythonApp.counter w = (Raise e, w)).
Proof.
  split.
  - intros d H. unfold stored_int in H.
    unfold PythonApp.counter, try_except, redis_client.incr, mbind, M_bind,
      redis_client.command. cbn [fault db].
    destruct (d !! "visit_counter") as [[[[]]|]|]; try discriminate H;
      eexists; split; reflexivity.
  - intros [f d] e Hf He. cbn [fault] in Hf. subst f.
    unfold PythonApp.counter, try_except, redis_client.incr.
    rewrite (bind_raise _ _ _ _ _ (command_fault _ _ _)). by rewrite He.
Qed.

Lemma counter_raises_other_errors_witness :
  (∃ e, PythonApp.counter (Redis None {["visit_counter" := RSet {["a"]}]}) =
          (Raise e, Redis None {["visit_counter" := RSet {["a"]}]}) ∧
        exn_cls e = ResponseError) ∧
  PythonApp.counter (Redis (Some (Exn TimeoutError "Timeout")) ∅) =
    (Raise (Exn TimeoutError "Timeout"), Redis (Some (Exn TimeoutError "Timeout")) ∅).
Proof.
  split.
  - apply (proj1 counter_raises_other_errors). reflexivity.
  - apply (proj2 counter_raises_other_errors); reflexivity.
Defined.

(** ** Listing: missing records, new tasks, statistics *)

Lemma get_tasks_loop_skip d ids acc :
  (∀ s, s ∈ ids →
        d !! Monolithic.task_key s = None ∨
        ∃ task, d !! Monolithic.task_key s = Some (RStr (Encoded (VDict task)))) →
  Monolithic.get_tasks_loop ids acc (Redis None d) =
    (Val (acc ++ (stored_task d <$>
                    filter (λ s, is_Some (d !! Monolithic.task_key s)) ids))%list,
     Redis None d).
Proof.
  revert acc. induction ids as [|s ids IH]; intros acc Hall.
  - cbn. by rewrite app_nil_r.
  - cbn [Monolithic.get_tasks_loop].
    destruct (Hall s) as [Hn | [task Ht]]; [by left| |].
    + rewrite (bind_val _ _ _ _ _ (get_None _ _ Hn)).
      rewrite filter_cons_False by (rewrite Hn; by intros [? ?]).
      apply IH. intros s' Hs'. apply Hall. by right.
    + rewrite (bind_val _ _ _ _ _ (get_Some _ _ _ Ht)).
      change (text_truthy _) with true. cbv iota.
      change (json.loads (Encoded (VDict task))) with (VDict task).
      unfold setitem. rewrite bind_lift. cbv beta.
      rewrite IH by (intros s' Hs'; apply Hall; by right).
      rewrite filter_cons_True by (by rewrite Ht).
      rewrite fmap_cons, <- app_assoc. unfold stored_task at 2. by rewrite Ht.
Qed.

(** X13: identifiers of the set whose record is missing are skipped by the
    listing without an error: it returns the tasks of exactly the members
    that have a record. *)
Theorem get_tasks_skips_missing_records d :
  ids_wf d →
  (∀ s, s ∈ task_ids d →
        d !! Monolithic.task_key s = None ∨
        ∃ task, d !! Monolithic.task_key s = Some (RStr (json.dumps (VDict task)))) →
  ∃ tasks,
    Monolithic.get_tasks (Redis None d) = (Val tasks, Redis None d) ∧
    tasks ≡ₚ stored_task d <$>
               filter (λ s, is_Some (d !! Monolithic.task_key s)) (elements (task_ids d)).
Proof.
  intros Hwf Hall. unfold Monolithic.get_tasks.
  rewrite (bind_val _ _ _ _ _ (smembers_run _ Hwf)).
  assert (Hall' : ∀ s, s ∈ elements (task_ids d) →
            d !! Monolithic.task_key s = None ∨
            ∃ task, d !! Monolithic.task_key s = Some (RStr (Encoded (VDict task)))).
  { intros s Hs%elem_of_elements. by apply Hall. }
  rewrite (bind_val _ _ _ _ _ (get_tasks_loop_skip d _ [] Hall')).
  rewrite app_nil_l.
  destruct (sorted_perm (λ x : dict, dict_get_default x "id" (VInt 0))
              (stored_task d <$>
                 filter (λ s, is_Some (d !! Monolithic.task_key s)) (elements (task_ids d))))
    as (tasks & Hs & Hp).
  { intros t (s & -> & [Hsome Hin%elem_of_elements]%list_elem_of_filter)%list_elem_of_fmap.
    exists s. unfold stored_task.
    destruct (Hall s Hin) as [Hn | [task Ht]].
    - rewrite Hn in Hsome. by destruct Hsome.
    - rewrite Ht. apply dict_get_default_Some, dict_get_set_eq. }
  exists tasks. unfold lift. by rewrite Hs.
Qed.

Lemma get_tasks_skips_missing_records_witness :
  let d : gmap string rval :=
    <["task_ids" := RSet {["1"; "2"]}]>
      {[ "task:2" := RStr (json.dumps (VDict [("title", VStr "walk dog");
                                              ("completed", VBool false)])) ]} in
  ∃ tasks,
    Monolithic.get_tasks (Redis None d) = (Val tasks, Redis None d) ∧
    tasks ≡ₚ stored_task d <$>
               filter (λ s, is_Some (d !! Monolithic.task_key s)) (elements (task_ids d)).
Proof.
  intros d. apply (get_tasks_skips_missing_records d).
  - right. exists {["1"; "2"]}. split; [|reflexivity].
    intros He. apply (not_elem_of_empty (C := gset string) "1"). rewrite <- He.
    apply elem_of_union_l. by apply elem_of_singleton.
  - intros s Hs.
    assert (s = "1" ∨ s = "2") as [-> | ->].
    { change (task_ids d) with ({["1"; "2"]} : gset string) in Hs.
      apply elem_of_union in Hs as [Hs|Hs]; apply elem_of_singleton in Hs; auto. }
    + left. reflexivity.
    + right. eexists. reflexivity.
Defined.

(** X14: a task created through POST /api/tasks is listed: after any
    history, the record in the 201 response is one of the tasks the next
    listing returns. *)
Theorem created_task_is_listed reqs data :
  has_title data →
  ∃ task tasks w',
    Monolithic.api_create_task data (Redis None (play reqs ∅)) =
      (Val (Response 201 (Json (VDict task))), w') ∧
    fst (Monolithic.get_tasks w') = Val tasks ∧
    task ∈ tasks.
Proof.
  intros Hd. destruct (has_title_inv _ Hd) as (items & -> & Ht).
  pose proof (play_agrees reqs ∅ _ agrees_empty) as Hag.
  set (L := fold_left _ reqs _) in *. set (d := play reqs ∅) in *.
  pose proof (agrees_add_task d L (body_title (VDict items)) Hag) as Hag'.
  destruct (get_tasks_agrees _ _ Hag') as (tasks & Hrun & Hperm).
  eexists _, tasks, _. split; [|split].
  - apply (api_create_task_ok _ _ _ _ Ht Hd (agrees_counter _ _ Hag) (agrees_wf _ _ Hag)).
  - by rewrite Hrun.
  - rewrite Hperm. cbn [live].
    apply (list_elem_of_fmap_2' view _ (Entry (issued L + 1) (body_title (VDict items)) false));
      [|done].
    apply elem_of_app. right. by apply list_elem_of_singleton.
Qed.

Lemma created_task_is_listed_witness :
  ∃ task tasks w',
    Monolithic.api_create_task (VDict [("title", VStr "call mum")])
      (Redis None (play [POST_tasks [("title", "buy milk")]; POST_delete "1"] ∅)) =
      (Val (Response 201 (Json (VDict task))), w') ∧
    fst (Monolithic.get_tasks w') = Val tasks ∧
    task ∈ tasks.
Proof.
  apply (created_task_is_listed [POST_tasks [("title", "buy milk")]; POST_delete "1"]
           (VDict [("title", VStr "call mum")])).
  reflexivity.
Defined.

Lemma filter_length_perm {A} (p : A → bool) l l' :
  l ≡ₚ l' → length (List.filter p l) = length (List.filter p l').
Proof.
  induction 1 as [|x l l' _ IH|x y l|l1 l2 l3 _ IH1 _ IH2]; cbn [List.filter].
  - done.
  - destruct (p x); cbn [length]; by rewrite IH.
  - by destruct (p x), (p y).
  - by rewrite IH1.
Qed.

Lemma completed_views l :
  length (List.filter (λ t, truthy (dict_get_default t "completed" (VBool false)))
            (view <$> l)) =
  length (List.filter entry_completed l).
Proof.
  induction l as [|e l IH]; [done|]. rewrite fmap_cons. cbn [List.filter].
  change (truthy (dict_get_default (view e) "completed" (VBool false)))
    with (entry_completed e).
  destruct (entry_completed e); cbn [length]; by rewrite IH.
Qed.

(** X15: after any history the index page shows the tasks of the ledger,
    their number as total_tasks and the number of completed ones as
    completed_tasks, and leaves the store unchanged. *)
Theorem index_statistics reqs :
  ∃ tasks,
    Monolithic.index (Redis None (play reqs ∅)) =
      (Val (Response 200
              (Html tasks (length (live (ledger_of reqs)))
                    (length (List.filter entry_completed (live (ledger_of reqs)))))),
       Redis None (play reqs ∅)) ∧
    tasks ≡ₚ view <$> live (ledger_of reqs).
Proof.
  destruct (get_tasks_agrees _ _ (play_agrees reqs ∅ _ agrees_empty))
    as (tasks & Hrun & Hperm).
  exists tasks. split; [|done]. unfold Monolithic.index.
  rewrite (bind_val _ _ _ _ _ Hrun). unfold mret, M_ret, render_template_string.
  assert (length tasks = length (live (ledger_of reqs))) as ->
    by (by rewrite Hperm, length_fmap).
  by rewrite (filter_length_perm _ _ _ Hperm), completed_views.
Qed.

(** ** Start-up of the python-app service *)

(** X16: the module stops with exit status 1 and its two diagnostic lines
    exactly when REDIS_HOST is unset or empty; this is decided before the
    port is read, so it does not depend on REDIS_PORT or on what [int]
    makes of it. *)
Theorem startup_exits_without_host int environ :
  startup int environ =
    SystemExit 1 ["ERROR: REDIS_HOST environment variable is required";
                  "Please set REDIS_HOST to the hostname of your Redis server"]
  ↔ environ !! "REDIS_HOST" = None ∨ environ !! "REDIS_HOST" = Some "".
Proof.
  unfold startup. destruct (environ !! "REDIS_HOST") as [h|] eqn:Eh; cbn [default].
  - destruct (String.eqb_spec h "") as [->|Hne]; cbn [negb].
    + split; [by right|done].
    + split.
      * by destruct (int _).
      * intros [?|[= ?]]; done.
  - split; [by left|done].
Qed.

(** X17: when start-up creates the client, the host is the non-empty value
    of REDIS_HOST, the port is [int] of REDIS_PORT, or of '6379' when that
    is unset, and GET / reports that host without touching the store. *)
Theorem startup_client_config int environ host port :
  startup int environ = Client host port →
  environ !! "REDIS_HOST" = Some host ∧
  host ≠ "" ∧
  int (default "6379" (environ !! "REDIS_PORT")) = Val port ∧
  ∀ w, PythonApp.home host w =
         (Val (Response 200 (Json (VDict [("service", VStr "Python Flask API");
                                          ("status", VStr "running");
                                          ("redis_host", VStr host)]))), w).
Proof.
  unfold startup. destruct (environ !! "REDIS_HOST") as [h|]; [|done].
  destruct (String.eqb_spec h "") as [->|Hne]; cbn [negb default]; [done|].
  destruct (int _) as [p|e]; [|done]. by intros [= -> ->].
Qed.

Lemma startup_client_config_witness :
  let int := λ s : string, if String.eqb s "6379" then Val 6379 else Val 0 in
  let environ : gmap string string := {["REDIS_HOST" := "redis"]} in
  environ !! "REDIS_HOST" = Some "redis" ∧
  "redis" ≠ "" ∧
  int (default "6379" (environ !! "REDIS_PORT")) = Val 6379 ∧
  ∀ w, PythonApp.home "redis" w =
         (Val (Response 200 (Json (VDict [("service", VStr "Python Flask API");
                                          ("status", VStr "running");
                                          ("redis_host", VStr "redis")]))), w).
Proof.
  intros int environ. apply (startup_client_config int environ "redis" 6379).
  reflexivity.
Defined.
